(** * Base64 codec (src/base64.ts): shallow embedding and verified properties

    The TypeScript class [Base64] is embedded function by function.  JavaScript
    numbers are modelled as [Z]; the bitwise operators go through [ToInt32] as
    the language defines them.  A JavaScript string is a [list ascii] (every
    code unit outside the Base64 classes is deleted by the decoder before it is
    looked at, so Latin-1 code units are enough), a [Uint8Array] is a
    [list byte], and the lookup object is a [gmap] keyed by property name.

    Each [for] loop is a [Fixpoint] on a number of rounds that cannot be
    exceeded (the length of the array or text it walks); the lemmas
    [encode_loop_eq] and [decode_loop_eq] show that the loop leaves by its own
    test.  The file has three parts: the embedding, the functional reading of
    the loops used in the proofs, and the lemmas and theorems. *)

From Stdlib Require Import ZArith Lia Strings.Ascii Strings.String Strings.Byte.
From stdpp Require Import base decidable option list gmap strings.

Local Open Scope Z_scope.

Abbreviation jsstring := (list ascii) (only parsing).
Abbreviation str s := (list_ascii_of_string s) (only parsing).

(** ** JavaScript primitives used by the codec *)

Module JS.

(** [ToInt32]: reduction modulo 2^32 into the signed range. *)
Definition ToInt32 (x : Z) : Z := (x + 2 ^ 31) mod 2 ^ 32 - 2 ^ 31.

(** [a << k], [a >> k], [a | b], [a & b] on numbers. *)
Definition shl (a k : Z) : Z := ToInt32 (Z.shiftl (ToInt32 a) (k mod 32)).
Definition sar (a k : Z) : Z := Z.shiftr (ToInt32 a) (k mod 32).
Definition bor (a b : Z) : Z := Z.lor (ToInt32 a) (ToInt32 b).
Definition band (a b : Z) : Z := Z.land (ToInt32 a) (ToInt32 b).

(** [s[i]] on a string: [None] stands for [undefined]. *)
Definition char_at (s : jsstring) (i : Z) : option ascii :=
  if bool_decide (0 <= i) then s !! Z.to_nat i else None.

(** [s += v] where [v] is a one-character string or [undefined]. *)
Definition append_value (s : jsstring) (v : option ascii) : jsstring :=
  match v with
  | Some c => s ++ [c]
  | None => s ++ str "undefined"
  end.

(** [a[i]] on a [Uint8Array], already coerced to a number by the bitwise
    operator that consumes it ([undefined] coerces to 0). *)
Definition u8_at (a : list byte) (i : Z) : Z :=
  if bool_decide (0 <= i) then
    match a !! Z.to_nat i with
    | Some b => Z.of_N (Byte.to_N b)
    | None => 0
    end
  else 0.

(** Storing a number into a [Uint8Array] slot keeps it modulo 256; a store
    outside the array is ignored. *)
Definition ToUint8 (x : Z) : byte :=
  match Byte.of_N (Z.to_N (x mod 256)) with
  | Some b => b
  | None => Byte.x00
  end.

Definition u8_store (a : list byte) (i : Z) (x : Z) : list byte :=
  if bool_decide (0 <= i) then <[Z.to_nat i := ToUint8 x]> a else a.

(** Property name of a value used as an object key.  The keys the codec
    looks up are one-character strings and "undefined"; [Object.prototype]
    has no property of either kind, so the own properties decide a lookup. *)
Definition to_key (v : option ascii) : jsstring :=
  match v with
  | Some c => [c]
  | None => str "undefined"
  end.

(** [s.endsWith(t)]. *)
Definition endsWith (s t : jsstring) : bool := bool_decide (t `suffix_of` s).

(** Outcome of a call that may throw. *)
Inductive completion (E A : Type) : Type :=
| Return (a : A)
| Throw (e : E).
Arguments Return {E A} a.
Arguments Throw {E A} e.

End JS.

(** ** The data model *)

Inductive Base64Variant : Set := Standard | UrlSafe.

(** [lineLength] is taken to be an integer. *)
Record Base64Options : Type := {
  variant : option Base64Variant;
  padding : option bool;
  lineLength : option Z
}.

(** The literal [{}] that both entry points take as default argument. *)
Definition no_options : Base64Options :=
  {| variant := None; padding := None; lineLength := None |}.

(** Destructuring defaults: [variant = Standard, padding = true, lineLength = 0]. *)
Definition opt_variant (o : Base64Options) : Base64Variant := default Standard (variant o).
Definition opt_padding (o : Base64Options) : bool := default true (padding o).
Definition opt_lineLength (o : Base64Options) : Z := default 0 (lineLength o).

Definition STANDARD_CHARS : jsstring :=
  str "ABCDEFGHIJKLMNOPQRSTUVWXYZabcdefghijklmnopqrstuvwxyz0123456789+/".
Definition URLSAFE_CHARS : jsstring :=
  str "ABCDEFGHIJKLMNOPQRSTUVWXYZabcdefghijklmnopqrstuvwxyz0123456789-_".

Definition getChars (v : Base64Variant) : jsstring :=
  match v with
  | UrlSafe => URLSAFE_CHARS
  | Standard => STANDARD_CHARS
  end.

(** [createLookup]: the loop [for (i = 0; i < chars.length; i++) lookup[chars[i]] = i]. *)
Fixpoint createLookup_loop (fuel : nat) (chars : jsstring) (i : Z)
    (lookup : gmap (list ascii) Z) : gmap (list ascii) Z :=
  match fuel with
  | O => lookup
  | S fuel' =>
      if bool_decide (i < Z.of_nat (length chars)) then
        createLookup_loop fuel' chars (i + 1)
          (<[JS.to_key (JS.char_at chars i) := i]> lookup)
      else lookup
  end.

Definition createLookup (v : Base64Variant) : gmap (list ascii) Z :=
  let chars := getChars v in
  createLookup_loop (length chars) chars 0 ∅.

(** ** encode *)

Definition CR : ascii := ascii_of_nat 13.
Definition LF : ascii := ascii_of_nat 10.
Definition CRLF : jsstring := [CR; LF].
Definition PAD : ascii := "="%char.

(** State of the main loop of [encode]: the index [i], the text built so far
    and the number of symbols on the current line. *)
Record enc_state : Type := {
  enc_i : Z;
  enc_base64 : jsstring;
  enc_lineCharCount : Z
}.

(** One pass through the body of the main loop (lines 53-66). *)
Definition encode_body (chars : jsstring) (lineLength : Z) (bytes : list byte)
    (s : enc_state) : enc_state :=
  let i := enc_i s in
  let combined :=
    JS.bor (JS.bor (JS.shl (JS.u8_at bytes i) 16) (JS.shl (JS.u8_at bytes (i + 1)) 8))
           (JS.u8_at bytes (i + 2)) in
  let base64 := enc_base64 s in
  let base64 := JS.append_value base64 (JS.char_at chars (JS.band (JS.sar combined 18) 63)) in
  let base64 := JS.append_value base64 (JS.char_at chars (JS.band (JS.sar combined 12) 63)) in
  let base64 := JS.append_value base64 (JS.char_at chars (JS.band (JS.sar combined 6) 63)) in
  let base64 := JS.append_value base64 (JS.char_at chars (JS.band combined 63)) in
  if bool_decide (lineLength > 0) then
    let lineCharCount := enc_lineCharCount s + 4 in
    if bool_decide (lineCharCount >= lineLength) then
      {| enc_i := i + 3; enc_base64 := base64 ++ CRLF; enc_lineCharCount := 0 |}
    else
      {| enc_i := i + 3; enc_base64 := base64; enc_lineCharCount := lineCharCount |}
  else
    {| enc_i := i + 3; enc_base64 := base64; enc_lineCharCount := enc_lineCharCount s |}.

(** The main loop [for (i = 0; i < len - 2; i += 3)]. *)
Fixpoint encode_loop (fuel : nat) (chars : jsstring) (lineLength : Z)
    (bytes : list byte) (s : enc_state) : enc_state :=
  match fuel with
  | O => s
  | S fuel' =>
      if bool_decide (enc_i s < Z.of_nat (length bytes) - 2) then
        encode_loop fuel' chars lineLength bytes (encode_body chars lineLength bytes s)
      else s
  end.

(** The tail [if (i < len) { ... }] (lines 69-90). *)
Definition encode_tail (chars : jsstring) (padding : bool) (lineLength : Z)
    (bytes : list byte) (s : enc_state) : jsstring :=
  let i := enc_i s in
  let len := Z.of_nat (length bytes) in
  let base64 := enc_base64 s in
  if bool_decide (i < len) then
    let remainingBytes := len - i in
    let combined := JS.shl (JS.u8_at bytes i) 16 in
    let combined :=
      if bool_decide (remainingBytes = 2)
      then JS.bor combined (JS.shl (JS.u8_at bytes (i + 1)) 8)
      else combined in
    let base64 := JS.append_value base64 (JS.char_at chars (JS.band (JS.sar combined 18) 63)) in
    let base64 := JS.append_value base64 (JS.char_at chars (JS.band (JS.sar combined 12) 63)) in
    let base64 :=
      if bool_decide (remainingBytes = 2)
      then JS.append_value base64 (JS.char_at chars (JS.band (JS.sar combined 6) 63))
      else if padding then base64 ++ [PAD] else base64 ++ [] in
    let base64 := if padding then base64 ++ [PAD] else base64 ++ [] in
    if bool_decide (lineLength > 0) &&
       negb (bool_decide (JS.char_at base64 (Z.of_nat (length base64) - 1) = Some LF))
    then base64 ++ CRLF
    else base64
  else base64.

(** [encode] up to the end of the main loop, then the whole function. *)
Definition encode_main (bytes : list byte) (options : Base64Options) : enc_state :=
  let variant := opt_variant options in
  let lineLength := opt_lineLength options in
  let chars := getChars variant in
  encode_loop (length bytes) chars lineLength bytes
    {| enc_i := 0; enc_base64 := []; enc_lineCharCount := 0 |}.

Definition encode (bytes : list byte) (options : Base64Options) : jsstring :=
  let variant := opt_variant options in
  let padding := opt_padding options in
  let lineLength := opt_lineLength options in
  let chars := getChars variant in
  encode_tail chars padding lineLength bytes (encode_main bytes options).

(** UTF-8 bytes of an ASCII literal, for the worked examples. *)
Definition ascii_bytes (s : string) : list byte := list_byte_of_string s.

(** ** decode *)

(** The bracket expressions of the two regular expressions (lines 106-109),
    read without their leading [^]. *)
Definition in_range (lo hi c : ascii) : bool :=
  (N_of_ascii lo <=? N_of_ascii c)%N && (N_of_ascii c <=? N_of_ascii hi)%N.

Definition alnum (c : ascii) : bool :=
  in_range "A" "Z" c || in_range "a" "z" c || in_range "0" "9" c.

Definition regex_class (v : Base64Variant) (c : ascii) : bool :=
  match v with
  | Standard =>
      alnum c || Ascii.eqb c "+" || Ascii.eqb c "/" || Ascii.eqb c "="
  | UrlSafe =>
      alnum c || Ascii.eqb c "-" || Ascii.eqb c "_"
  end.

(** [base64.replace(regex, '')] with the [g] flag: every character outside the
    bracket expression is deleted. *)
Definition sanitize (v : Base64Variant) (base64 : jsstring) : jsstring :=
  filter (fun c => Is_true (regex_class v c)) base64.

Inductive decode_error : Set :=
| InvalidLength        (* Error('Invalid Base64 string length.') *)
| InvalidArrayLength.  (* RangeError of new Uint8Array(n) for n < 0 *)

Record dec_state : Type := {
  dec_i : Z;
  dec_byteIndex : Z;
  dec_bytes : list byte
}.

(** [[3, 2, 1, 0].reduce((cur, j) => cur | ((lookup[base64[i++]] ?? 0) << (j * 6)), 0)];
    the callback advances [i], so [i] is threaded with the accumulator. *)
Definition decode_combined (lookup : gmap (list ascii) Z) (base64 : jsstring)
    (i : Z) : Z * Z :=
  foldl (fun '(cur, i) j =>
           (JS.bor cur
              (JS.shl (default 0 (lookup !! JS.to_key (JS.char_at base64 i))) (j * 6)),
            i + 1))
        (0, i) [3; 2; 1; 0].

(** [if (byteIndex < outputLen) bytes[byteIndex++] = x]. *)
Definition store_byte (outputLen x : Z) (st : Z * list byte) : Z * list byte :=
  let '(byteIndex, bytes) := st in
  if bool_decide (byteIndex < outputLen)
  then (byteIndex + 1, JS.u8_store bytes byteIndex x)
  else st.

Definition decode_body (lookup : gmap (list ascii) Z) (base64 : jsstring)
    (outputLen : Z) (s : dec_state) : dec_state :=
  let '(combined, i) := decode_combined lookup base64 (dec_i s) in
  let st := (dec_byteIndex s, dec_bytes s) in
  let st := store_byte outputLen (JS.band (JS.sar combined 16) 255) st in
  let st := store_byte outputLen (JS.band (JS.sar combined 8) 255) st in
  let st := store_byte outputLen (JS.band combined 255) st in
  {| dec_i := i; dec_byteIndex := fst st; dec_bytes := snd st |}.

(** The loop [for (let i = 0; i < len; ) { ... }]. *)
Fixpoint decode_loop (fuel : nat) (lookup : gmap (list ascii) Z)
    (base64 : jsstring) (outputLen : Z) (s : dec_state) : dec_state :=
  match fuel with
  | O => s
  | S fuel' =>
      if bool_decide (dec_i s < Z.of_nat (length base64)) then
        decode_loop fuel' lookup base64 outputLen
          (decode_body lookup base64 outputLen s)
      else s
  end.

Definition decode (base64 : jsstring) (options : Base64Options)
    : JS.completion decode_error (list byte) :=
  let variant := opt_variant options in
  let padding := opt_padding options in
  let lookup := createLookup variant in
  let base64 := sanitize variant base64 in
  if padding && negb (Z.rem (Z.of_nat (length base64)) 4 =? 0) then
    JS.Throw InvalidLength
  else
    let len := Z.of_nat (length base64) in
    let paddingChars :=
      if padding then
        if JS.endsWith base64 (str "==") then 2
        else if JS.endsWith base64 (str "=") then 1 else 0
      else 0 in
    let outputLen := JS.sar (len * 3) 2 - paddingChars in
    if bool_decide (outputLen < 0) then JS.Throw InvalidArrayLength
    else
      let bytes := replicate (Z.to_nat outputLen) Byte.x00 in
      let s := decode_loop (length base64) lookup base64 outputLen
                 {| dec_i := 0; dec_byteIndex := 0; dec_bytes := bytes |} in
      JS.Return (dec_bytes s).


(** ** Functional reading of the loops

    These functions are what the lemmas below show the loops to compute; the
    theorems about [encode] and [decode] are stated on the embeddings above. *)

Definition byte_val (b : byte) : Z := Z.of_N (Byte.to_N b).

(** [b0 << 16 | b1 << 8 | b2] on byte values. *)
Definition pack (b0 b1 b2 : Z) : Z := b0 * 65536 + b1 * 256 + b2.

(** [(n >> k) & 0x3f] on a 24-bit value. *)
Definition sextet (n k : Z) : Z := (n / 2 ^ k) mod 64.

(** [chars[k]] for an index inside the alphabet. *)
Definition symbol (chars : jsstring) (k : Z) : ascii :=
  default PAD (chars !! Z.to_nat k).

Definition quad (chars : jsstring) (n : Z) : jsstring :=
  [symbol chars (sextet n 18); symbol chars (sextet n 12);
   symbol chars (sextet n 6); symbol chars (sextet n 0)].

(** Text appended by the main loop for the complete groups of [bs], starting
    with [lcc] symbols on the current line, and the final line count. *)
Fixpoint full_groups (chars : jsstring) (L : Z) (bs : list byte) (lcc : Z)
    : jsstring * Z :=
  match bs with
  | b0 :: b1 :: b2 :: rest =>
      let q := quad chars (pack (byte_val b0) (byte_val b1) (byte_val b2)) in
      if bool_decide (L > 0) then
        if bool_decide (lcc + 4 >= L) then
          let r := full_groups chars L rest 0 in (q ++ CRLF ++ r.1, r.2)
        else
          let r := full_groups chars L rest (lcc + 4) in (q ++ r.1, r.2)
      else
        let r := full_groups chars L rest lcc in (q ++ r.1, r.2)
  | _ => ([], lcc)
  end.

(** The bytes left over after the complete groups. *)
Fixpoint leftover (bs : list byte) : list byte :=
  match bs with
  | _ :: _ :: _ :: rest => leftover rest
  | _ => bs
  end.

Definition pad_text (padding : bool) (k : nat) : jsstring :=
  if padding then replicate k PAD else [].

Definition wrap_text (L : Z) : jsstring :=
  if bool_decide (L > 0) then CRLF else [].

(** Text appended by the tail for the leftover bytes. *)
Definition tail_text (chars : jsstring) (padding : bool) (L : Z)
    (bs : list byte) : jsstring :=
  match bs with
  | [b0] =>
      let n := pack (byte_val b0) 0 0 in
      [symbol chars (sextet n 18); symbol chars (sextet n 12)]
        ++ pad_text padding 2 ++ wrap_text L
  | [b0; b1] =>
      let n := pack (byte_val b0) (byte_val b1) 0 in
      [symbol chars (sextet n 18); symbol chars (sextet n 12);
       symbol chars (sextet n 6)]
        ++ pad_text padding 1 ++ wrap_text L
  | _ => []
  end.

Definition encode_text (chars : jsstring) (padding : bool) (L : Z)
    (bs : list byte) : jsstring :=
  (full_groups chars L bs 0).1 ++ tail_text chars padding L (leftover bs).

(** Ceiling of [a / b] for positive [b]. *)
Definition ceil_div (a b : Z) : Z := (a + b - 1) / b.

(** The relation between a Standard symbol and its UrlSafe counterpart. *)
Definition url_of (c : ascii) : ascii :=
  if Ascii.eqb c "+" then "-"%char
  else if Ascii.eqb c "/" then "_"%char
  else c.

(** Symbols that may appear on a line: alphabet members and the pad. *)
Definition is_symbol (chars : jsstring) (c : ascii) : Prop :=
  c ∈ chars ∨ c = PAD.

(** A text made of terminated lines. *)
Definition join_lines (lines : list (list ascii)) : jsstring :=
  concat (map (fun l => l ++ CRLF) lines).

(** A character that can stand on a line: an alphabet member or the pad,
    never part of a line terminator. *)
Definition line_char (chars : jsstring) (c : ascii) : Prop :=
  is_symbol chars c /\ c <> CR /\ c <> LF.

(** Number of characters the tail contributes when nothing is wrapped. *)
Definition tail_length (padding : bool) (r : Z) : Z :=
  if bool_decide (r = 0) then 0
  else if padding then 4
  else if bool_decide (r = 1) then 2 else 3.

(** Sanitization as the specification words it: keep the symbols of the
    selected alphabet and '=', delete everything else.  It is compared with
    [sanitize], which embeds the two regular expressions of the source. *)
Definition spec_sanitize (v : Base64Variant) (base64 : jsstring) : jsstring :=
  filter (fun c => c ∈ getChars v \/ c = PAD) base64.

(** [lookup[base64[i]] ?? 0]. *)
Definition digit (lookup : gmap (list ascii) Z) (base64 : jsstring) (i : Z) : Z :=
  default 0 (lookup !! JS.to_key (JS.char_at base64 i)).

(** The 24-bit value of the four characters at [i .. i + 3]. *)
Definition word (lookup : gmap (list ascii) Z) (base64 : jsstring) (i : Z) : Z :=
  digit lookup base64 i * 2 ^ 18 + digit lookup base64 (i + 1) * 2 ^ 12 +
  digit lookup base64 (i + 2) * 2 ^ 6 + digit lookup base64 (i + 3).

(** The three bytes of a 24-bit value, as the loop stores them. *)
Definition word_bytes (n : Z) : list byte :=
  [JS.ToUint8 ((n / 2 ^ 16) mod 256); JS.ToUint8 ((n / 2 ^ 8) mod 256);
   JS.ToUint8 (n mod 256)].

(** The bytes of the first [k] groups of four characters. *)
Fixpoint decoded (lookup : gmap (list ascii) Z) (base64 : jsstring) (k : nat)
    : list byte :=
  match k with
  | O => []
  | S k' => decoded lookup base64 k' ++ word_bytes (word lookup base64 (4 * Z.of_nat k'))
  end.

(** The index and the array of the decoding loop once the bytes [D] have
    been offered to an array of [N] slots. *)
Definition dec_view (N : nat) (D : list byte) : Z * list byte :=
  (Z.of_nat (Nat.min (length D) N),
   take N D ++ replicate (N - length D) Byte.x00).

(** State of the decoding loop after [k] groups. *)
Definition dec_at (lookup : gmap (list ascii) Z) (base64 : jsstring)
    (N k : nat) : dec_state :=
  {| dec_i := 4 * Z.of_nat k;
     dec_byteIndex := (dec_view N (decoded lookup base64 k)).1;
     dec_bytes := (dec_view N (decoded lookup base64 k)).2 |}.

(** Number of groups of four characters the decoding loop visits. *)
Definition group_count (base64 : jsstring) : nat :=
  Z.to_nat (ceil_div (Z.of_nat (length base64)) 4).

(** [paddingChars] and [outputLen] of [decode] (lines 118-123), for the
    sanitized text. *)
Definition paddingChars (padding : bool) (base64 : jsstring) : Z :=
  if padding then
    if JS.endsWith base64 (str "==") then 2
    else if JS.endsWith base64 (str "=") then 1 else 0
  else 0.

Definition outputLen (padding : bool) (base64 : jsstring) : Z :=
  JS.sar (Z.of_nat (length base64) * 3) 2 - paddingChars padding base64.

(** Whether the padding the encoder wrote survives the decoder's regular
    expression. *)
Definition kept_padding (v : Base64Variant) (padding : bool) : bool :=
  match v with
  | Standard => padding
  | UrlSafe => false
  end.

(** Option values used in the worked examples. *)
Definition unpadded (v : Base64Variant) : Base64Options :=
  {| variant := Some v; padding := Some false; lineLength := Some 0 |}.

Definition padded (v : Base64Variant) : Base64Options :=
  {| variant := Some v; padding := Some true; lineLength := Some 0 |}.

Definition wrapped (v : Base64Variant) (p : bool) (L : Z) : Base64Options :=
  {| variant := Some v; padding := Some p; lineLength := Some L |}.

(** ** encodeString and decodeString

    [TextEncoder] and [TextDecoder] belong to the platform, not to this
    repository: the two wrappers take them as parameters, over any type
    [text] of strings.  [TextDecoder.decode] with the default options does
    not throw, so [decodeString] throws only what [decode] throws. *)

Definition encodeString {text : Type} (TextEncoder_encode : text -> list byte)
    (input : text) (options : Base64Options) : jsstring :=
  let bytes := TextEncoder_encode input in
  encode bytes options.

Definition decodeString {text : Type} (TextDecoder_decode : list byte -> text)
    (base64 : jsstring) (options : Base64Options)
    : JS.completion decode_error text :=
  match decode base64 options with
  | JS.Return bytes => JS.Return (TextDecoder_decode bytes)
  | JS.Throw e => JS.Throw e
  end.

(** The options [o] with another [lineLength] or [padding]. *)
Definition set_lineLength (o : Base64Options) (L : Z) : Base64Options :=
  {| variant := variant o; padding := padding o; lineLength := Some L |}.

Definition set_padding (o : Base64Options) (p : bool) : Base64Options :=
  {| variant := variant o; padding := Some p; lineLength := lineLength o |}.

(** A character that is not part of a line terminator. *)
Definition not_terminator (c : ascii) : Prop := c <> CR /\ c <> LF.

(** Number of symbols on a full line when the line length is [L]. *)
Definition line_width (L : Z) : Z := 4 * ceil_div L 4.

(** Number of terminators in the encoding of [n] bytes wrapped at [L > 0]. *)
Definition terminator_count (L n : Z) : Z :=
  (4 * (n / 3)) / line_width L + (if bool_decide (n mod 3 = 0) then 0 else 1).

(** The zero bytes that complete [n] bytes to whole groups of three. *)
Definition zero_fill (n : nat) : list byte :=
  replicate ((3 - n mod 3) mod 3) Byte.x00.

(** The wrapping rule as the specification words it for the whole output:
    whenever the output is cut into terminated lines followed by a rest, every
    terminated line holds whole 4-symbol groups and at least [L] symbols.  It
    is compared with what [encode] returns. *)
Definition claimed_wrap_rule (L : Z) (out : jsstring) : Prop :=
  forall (lines : list (list ascii)) (rest : list ascii),
    out = join_lines lines ++ rest ->
    Forall (Forall not_terminator) lines ->
    Forall (fun l => Z.of_nat (length l) mod 4 = 0 /\ L <= Z.of_nat (length l))
           lines.

(** Linear arithmetic with division and remainder by constants. *)
Ltac divmod := Z.div_mod_to_equations; lia.

(** ** Properties of the JavaScript primitives *)

Lemma ToInt32_small x : - 2 ^ 31 <= x < 2 ^ 31 -> JS.ToInt32 x = x.
Proof.
  intros Hx. unfold JS.ToInt32.
  rewrite Z.mod_small by lia. lia.
Qed.

Lemma land_high_low hi lo k :
  0 <= k -> 0 <= lo < 2 ^ k -> Z.land (hi * 2 ^ k) lo = 0.
Proof.
  intros Hk Hlo. apply Z.bits_inj'. intros n Hn.
  rewrite Z.land_spec, Z.bits_0.
  destruct (Z.lt_ge_cases n k) as [Hlt | Hge].
  - rewrite Z.mul_pow2_bits_low by lia. reflexivity.
  - rewrite <- (Z.mod_small lo (2 ^ k)) by lia.
    rewrite Z.mod_pow2_bits_high by lia.
    apply andb_false_r.
Qed.

Lemma lor_high_low hi lo k :
  0 <= k -> 0 <= lo < 2 ^ k -> Z.lor (hi * 2 ^ k) lo = hi * 2 ^ k + lo.
Proof.
  intros Hk Hlo.
  rewrite <- (Z.add_lor_land (hi * 2 ^ k) lo).
  rewrite land_high_low by assumption. lia.
Qed.

Lemma byte_val_range b : 0 <= byte_val b < 256.
Proof.
  unfold byte_val. pose proof (Byte.to_N_bounded b). lia.
Qed.

Lemma shl_16 x : 0 <= x < 256 -> JS.shl x 16 = x * 65536.
Proof.
  intros Hx. unfold JS.shl.
  rewrite (ToInt32_small x) by lia.
  change (16 mod 32) with 16.
  rewrite Z.shiftl_mul_pow2 by lia.
  change (2 ^ 16) with 65536.
  apply ToInt32_small. lia.
Qed.

Lemma shl_8 x : 0 <= x < 256 -> JS.shl x 8 = x * 256.
Proof.
  intros Hx. unfold JS.shl.
  rewrite (ToInt32_small x) by lia.
  change (8 mod 32) with 8.
  rewrite Z.shiftl_mul_pow2 by lia.
  change (2 ^ 8) with 256.
  apply ToInt32_small. lia.
Qed.

Lemma combined_pack b0 b1 b2 :
  0 <= b0 < 256 -> 0 <= b1 < 256 -> 0 <= b2 < 256 ->
  JS.bor (JS.bor (JS.shl b0 16) (JS.shl b1 8)) b2 = pack b0 b1 b2.
Proof.
  intros H0 H1 H2. rewrite shl_16, shl_8 by assumption.
  unfold JS.bor, pack.
  rewrite (ToInt32_small (b0 * 65536)), (ToInt32_small (b1 * 256)) by lia.
  change 65536 with (2 ^ 16) at 1.
  rewrite (lor_high_low b0 (b1 * 256) 16) by lia.
  rewrite ToInt32_small, (ToInt32_small b2) by lia.
  replace (b0 * 2 ^ 16 + b1 * 256) with ((b0 * 256 + b1) * 2 ^ 8) by lia.
  rewrite lor_high_low by lia. lia.
Qed.

Lemma combined_pack2 b0 b1 :
  0 <= b0 < 256 -> 0 <= b1 < 256 ->
  JS.bor (JS.shl b0 16) (JS.shl b1 8) = pack b0 b1 0.
Proof.
  intros H0 H1. rewrite shl_16, shl_8 by assumption.
  unfold JS.bor, pack.
  rewrite (ToInt32_small (b0 * 65536)), (ToInt32_small (b1 * 256)) by lia.
  change 65536 with (2 ^ 16) at 1.
  rewrite (lor_high_low b0 (b1 * 256) 16) by lia. lia.
Qed.

Lemma pack_range b0 b1 b2 :
  0 <= b0 < 256 -> 0 <= b1 < 256 -> 0 <= b2 < 256 ->
  0 <= pack b0 b1 b2 < 2 ^ 24.
Proof. unfold pack. lia. Qed.

Lemma sextet_range n k : 0 <= sextet n k < 64.
Proof. unfold sextet. apply Z.mod_pos_bound. lia. Qed.

Lemma band_sar_sextet n k :
  0 <= n < 2 ^ 24 -> 0 <= k < 32 ->
  JS.band (JS.sar n k) 63 = sextet n k.
Proof.
  intros Hn Hk. unfold JS.band, JS.sar, sextet.
  rewrite (ToInt32_small n) by lia.
  rewrite (Z.mod_small k 32) by lia.
  rewrite Z.shiftr_div_pow2 by lia.
  assert (0 <= n / 2 ^ k < 2 ^ 24).
  { split; [apply Z.div_pos; lia |].
    apply Z.div_lt_upper_bound; [lia |].
    assert (1 <= 2 ^ k) by (apply (Z.pow_le_mono_r 2 0 k); lia). nia. }
  rewrite ToInt32_small, (ToInt32_small 63) by lia.
  change 63 with (Z.ones 6). rewrite Z.land_ones by lia. reflexivity.
Qed.

Lemma band_sextet_0 n :
  0 <= n < 2 ^ 24 -> JS.band n 63 = sextet n 0.
Proof.
  intros Hn. unfold JS.band, sextet.
  rewrite ToInt32_small, (ToInt32_small 63) by lia.
  change 63 with (Z.ones 6). rewrite Z.land_ones by lia.
  rewrite Z.pow_0_r, Z.div_1_r. reflexivity.
Qed.

(** ** Lists taken three elements at a time *)

Lemma list_ind3 {A : Type} (P : list A -> Prop) :
  P [] -> (forall a, P [a]) -> (forall a b, P [a; b]) ->
  (forall a b c l, P l -> P (a :: b :: c :: l)) ->
  forall l, P l.
Proof.
  intros H0 H1 H2 H3 l.
  cut (P l /\ (forall a, P (a :: l)) /\ (forall a b, P (a :: b :: l))).
  { intros [H _]. exact H. }
  induction l as [| x l [IH0 [IH1 IH2]]].
  - auto.
  - split; [apply IH1 | split].
    + intros a. apply IH2.
    + intros a b. apply H3. exact IH0.
Qed.

Lemma leftover_split (bs : list byte) :
  exists pre, bs = pre ++ leftover bs /\ (length (leftover bs) < 3)%nat.
Proof.
  induction bs as [| a | a b | a b c l [pre [Heq Hlt]]] using list_ind3.
  - exists []. simpl. split; [reflexivity | lia].
  - exists []. simpl. split; [reflexivity | lia].
  - exists []. simpl. split; [reflexivity | lia].
  - exists (a :: b :: c :: pre). simpl. split; [congruence | exact Hlt].
Qed.

Lemma leftover_length (bs : list byte) :
  length (leftover bs) = (length bs mod 3)%nat.
Proof.
  induction bs as [| a | a b | a b c l IH] using list_ind3; try reflexivity.
  cbn [leftover length]. rewrite IH.
  replace (S (S (S (length l)))) with (length l + 1 * 3)%nat by lia.
  symmetry. apply Nat.Div0.mod_add.
Qed.

(** ** The encoder computes [encode_text] *)

Lemma char_at_nat (s : jsstring) (n : nat) : JS.char_at s (Z.of_nat n) = s !! n.
Proof.
  unfold JS.char_at. rewrite bool_decide_eq_true_2 by lia.
  rewrite Nat2Z.id. reflexivity.
Qed.

Lemma char_at_last (s : jsstring) (c : ascii) :
  JS.char_at (s ++ [c]) (Z.of_nat (length (s ++ [c])) - 1) = Some c.
Proof.
  rewrite length_app. simpl length.
  replace (Z.of_nat (length s + 1) - 1) with (Z.of_nat (length s)) by lia.
  rewrite char_at_nat. rewrite lookup_app_r by lia.
  rewrite Nat.sub_diag. reflexivity.
Qed.

Lemma u8_at_app (pre bs : list byte) (j : nat) :
  JS.u8_at (pre ++ bs) (Z.of_nat (length pre) + Z.of_nat j) =
  match bs !! j with Some b => byte_val b | None => 0 end.
Proof.
  unfold JS.u8_at. rewrite bool_decide_eq_true_2 by lia.
  rewrite <- Nat2Z.inj_add, Nat2Z.id.
  rewrite lookup_app_r by lia.
  replace (length pre + j - length pre)%nat with j by lia.
  reflexivity.
Qed.

Section Encoder.

Variable chars : jsstring.
Hypothesis chars_length : length chars = 64%nat.
Hypothesis chars_no_LF : LF ∉ chars.

Lemma char_at_symbol k :
  0 <= k < 64 -> JS.char_at chars k = Some (symbol chars k).
Proof.
  intros Hk. unfold JS.char_at, symbol.
  rewrite bool_decide_eq_true_2 by lia.
  destruct (lookup_lt_is_Some_2 chars (Z.to_nat k)) as [c Hc]; [lia |].
  rewrite Hc. reflexivity.
Qed.

Lemma symbol_in k : 0 <= k < 64 -> symbol chars k ∈ chars.
Proof.
  intros Hk. unfold symbol.
  destruct (lookup_lt_is_Some_2 chars (Z.to_nat k)) as [c Hc]; [lia |].
  rewrite Hc. simpl. eapply list_elem_of_lookup_2. exact Hc.
Qed.

Lemma append_sextet s n k :
  0 <= n < 2 ^ 24 -> 0 <= k < 32 ->
  JS.append_value s (JS.char_at chars (JS.band (JS.sar n k) 63)) =
  s ++ [symbol chars (sextet n k)].
Proof.
  intros Hn Hk. rewrite band_sar_sextet by assumption.
  rewrite char_at_symbol by apply sextet_range. reflexivity.
Qed.

Lemma append_sextet_0 s n :
  0 <= n < 2 ^ 24 ->
  JS.append_value s (JS.char_at chars (JS.band n 63)) =
  s ++ [symbol chars (sextet n 0)].
Proof.
  intros Hn. rewrite band_sextet_0 by assumption.
  rewrite char_at_symbol by apply sextet_range. reflexivity.
Qed.

(** Effect of one pass through the loop body on the group at index [i]. *)
Lemma encode_body_eq L pre b0 b1 b2 rest base64 lcc :
  let n := pack (byte_val b0) (byte_val b1) (byte_val b2) in
  encode_body chars L (pre ++ b0 :: b1 :: b2 :: rest)
    {| enc_i := Z.of_nat (length pre); enc_base64 := base64;
       enc_lineCharCount := lcc |} =
  {| enc_i := Z.of_nat (length pre) + 3;
     enc_base64 :=
       base64 ++ quad chars n ++
       (if bool_decide (L > 0) && bool_decide (lcc + 4 >= L) then CRLF else []);
     enc_lineCharCount :=
       if bool_decide (L > 0)
       then if bool_decide (lcc + 4 >= L) then 0 else lcc + 4
       else lcc |}.
Proof.
  intros n. unfold encode_body. cbn [enc_i enc_base64 enc_lineCharCount].
  pose proof (u8_at_app pre (b0 :: b1 :: b2 :: rest) 0) as E0.
  pose proof (u8_at_app pre (b0 :: b1 :: b2 :: rest) 1) as E1.
  pose proof (u8_at_app pre (b0 :: b1 :: b2 :: rest) 2) as E2.
  cbn [lookup list_lookup] in E0, E1, E2.
  rewrite Z.add_0_r in E0. change (Z.of_nat 1) with 1 in E1.
  change (Z.of_nat 2) with 2 in E2.
  rewrite E0, E1, E2.
  pose proof (byte_val_range b0). pose proof (byte_val_range b1).
  pose proof (byte_val_range b2).
  rewrite combined_pack by assumption. fold n.
  assert (0 <= n < 2 ^ 24) by (apply pack_range; assumption).
  rewrite !append_sextet, append_sextet_0 by (assumption || lia).
  unfold quad.
  destruct (bool_decide (L > 0)); cbn [andb];
    [destruct (bool_decide (lcc + 4 >= L)) |];
    f_equal; rewrite <- ?app_assoc; simpl; rewrite ?app_nil_r; reflexivity.
Qed.

Lemma encode_loop_eq L fuel : forall pre bs base64 lcc,
  (length bs <= fuel)%nat ->
  encode_loop fuel chars L (pre ++ bs)
    {| enc_i := Z.of_nat (length pre); enc_base64 := base64;
       enc_lineCharCount := lcc |} =
  {| enc_i := Z.of_nat (length pre + length bs - length (leftover bs));
     enc_base64 := base64 ++ (full_groups chars L bs lcc).1;
     enc_lineCharCount := (full_groups chars L bs lcc).2 |}.
Proof.
  induction fuel as [| fuel IH]; intros pre bs base64 lcc Hfuel.
  - destruct bs; [| simpl in Hfuel; lia].
    simpl. rewrite app_nil_r, Nat.add_0_r, Nat.sub_0_r. reflexivity.
  - cbn [encode_loop enc_i].
    destruct bs as [| b0 [| b1 [| b2 rest]]].
    + rewrite bool_decide_eq_false_2 by (rewrite length_app; simpl; lia).
      simpl. rewrite app_nil_r. f_equal. lia.
    + rewrite bool_decide_eq_false_2 by (rewrite length_app; simpl; lia).
      simpl. rewrite app_nil_r. f_equal. lia.
    + rewrite bool_decide_eq_false_2 by (rewrite length_app; simpl; lia).
      simpl. rewrite app_nil_r. f_equal. lia.
    + rewrite bool_decide_eq_true_2 by (rewrite length_app; simpl; lia).
      rewrite encode_body_eq.
      replace (pre ++ b0 :: b1 :: b2 :: rest)
        with ((pre ++ [b0; b1; b2]) ++ rest)
        by (rewrite <- app_assoc; reflexivity).
      replace (Z.of_nat (length pre) + 3)
        with (Z.of_nat (length (pre ++ [b0; b1; b2])))
        by (rewrite length_app; simpl; lia).
      rewrite IH by (simpl in Hfuel; lia).
      cbn [full_groups leftover].
      f_equal.
      * rewrite length_app. simpl. f_equal. lia.
      * destruct (bool_decide (L > 0)); cbn [andb];
          [destruct (bool_decide (lcc + 4 >= L)) |];
          cbn [fst]; rewrite <- ?app_assoc; rewrite ?app_nil_l; reflexivity.
      * destruct (bool_decide (L > 0));
          [destruct (bool_decide (lcc + 4 >= L)) |]; reflexivity.
Qed.

Lemma symbol_not_LF k : 0 <= k < 64 -> symbol chars k <> LF.
Proof.
  intros Hk Heq. apply chars_no_LF. rewrite <- Heq. apply symbol_in, Hk.
Qed.

Lemma last_check_symbol L (s : jsstring) k :
  0 <= k < 64 ->
  bool_decide (L > 0) &&
  negb (bool_decide (JS.char_at (s ++ [symbol chars k])
          (Z.of_nat (length (s ++ [symbol chars k])) - 1) = Some LF)) =
  bool_decide (L > 0).
Proof.
  intros Hk. rewrite char_at_last.
  rewrite (bool_decide_eq_false_2 (Some (symbol chars k) = Some LF)).
  - apply andb_true_r.
  - intros [= H]. exact (symbol_not_LF k Hk H).
Qed.

Lemma last_check_pad L (s : jsstring) :
  bool_decide (L > 0) &&
  negb (bool_decide (JS.char_at (s ++ [PAD])
          (Z.of_nat (length (s ++ [PAD])) - 1) = Some LF)) =
  bool_decide (L > 0).
Proof.
  rewrite char_at_last.
  rewrite (bool_decide_eq_false_2 (Some PAD = Some LF)) by discriminate.
  apply andb_true_r.
Qed.

Lemma encode_tail_eq padding L pre bs base64 lcc :
  (length bs < 3)%nat ->
  encode_tail chars padding L (pre ++ bs)
    {| enc_i := Z.of_nat (length pre); enc_base64 := base64;
       enc_lineCharCount := lcc |} =
  base64 ++ tail_text chars padding L bs.
Proof.
  intros Hlen. unfold encode_tail. cbn [enc_i enc_base64].
  destruct bs as [| b0 [| b1 [| b2 rest]]]; [| | | simpl in Hlen; lia].
  - rewrite bool_decide_eq_false_2 by (rewrite length_app; simpl; lia).
    simpl. rewrite app_nil_r. reflexivity.
  - rewrite bool_decide_eq_true_2 by (rewrite length_app; simpl; lia).
    rewrite (bool_decide_eq_false_2 (_ = 2)) by (rewrite length_app; simpl; lia).
    pose proof (u8_at_app pre [b0] 0) as E0. cbn [lookup list_lookup] in E0.
    rewrite Z.add_0_r in E0. rewrite E0.
    pose proof (byte_val_range b0) as R0.
    rewrite shl_16 by assumption.
    replace (byte_val b0 * 65536) with (pack (byte_val b0) 0 0)
      by (unfold pack; lia).
    assert (0 <= pack (byte_val b0) 0 0 < 2 ^ 24) by (apply pack_range; lia).
    rewrite !append_sextet by (assumption || lia).
    unfold tail_text, pad_text, wrap_text.
    destruct padding.
    + rewrite last_check_pad.
      destruct (bool_decide (L > 0)); simpl;
        rewrite <- ?app_assoc; simpl; rewrite ?app_nil_r; reflexivity.
    + rewrite !app_nil_r, last_check_symbol by apply sextet_range.
      destruct (bool_decide (L > 0)); simpl;
        rewrite <- ?app_assoc; simpl; rewrite ?app_nil_r; reflexivity.
  - rewrite bool_decide_eq_true_2 by (rewrite length_app; simpl; lia).
    rewrite !(bool_decide_eq_true_2 (_ = 2)) by (rewrite length_app; simpl; lia).
    pose proof (u8_at_app pre [b0; b1] 0) as E0.
    pose proof (u8_at_app pre [b0; b1] 1) as E1.
    cbn [lookup list_lookup] in E0, E1.
    rewrite Z.add_0_r in E0. change (Z.of_nat 1) with 1 in E1.
    rewrite E0, E1.
    pose proof (byte_val_range b0) as R0. pose proof (byte_val_range b1) as R1.
    rewrite combined_pack2 by assumption.
    assert (0 <= pack (byte_val b0) (byte_val b1) 0 < 2 ^ 24)
      by (apply pack_range; lia).
    rewrite !append_sextet by (assumption || lia).
    unfold tail_text, pad_text, wrap_text.
    destruct padding.
    + rewrite last_check_pad.
      destruct (bool_decide (L > 0)); simpl;
        rewrite <- ?app_assoc; simpl; rewrite ?app_nil_r; reflexivity.
    + rewrite !app_nil_r, last_check_symbol by apply sextet_range.
      destruct (bool_decide (L > 0)); simpl;
        rewrite <- ?app_assoc; simpl; rewrite ?app_nil_r; reflexivity.
Qed.

End Encoder.

Lemma getChars_length v : length (getChars v) = 64%nat.
Proof. destruct v; reflexivity. Qed.

Lemma getChars_no_LF v : LF ∉ getChars v.
Proof. destruct v; apply (bool_decide_unpack _); vm_compute; exact I. Qed.

Lemma getChars_no_CR v : CR ∉ getChars v.
Proof. destruct v; apply (bool_decide_unpack _); vm_compute; exact I. Qed.

Lemma getChars_no_PAD v : PAD ∉ getChars v.
Proof. destruct v; apply (bool_decide_unpack _); vm_compute; exact I. Qed.

Lemma getChars_NoDup v : NoDup (getChars v).
Proof. destruct v; apply (bool_decide_unpack _); vm_compute; exact I. Qed.

(** The index loop and the tail of [encode] compute [encode_text]. *)
Lemma encode_main_eq bytes o :
  encode_main bytes o =
  {| enc_i := Z.of_nat (length bytes - length (leftover bytes));
     enc_base64 := (full_groups (getChars (opt_variant o)) (opt_lineLength o) bytes 0).1;
     enc_lineCharCount :=
       (full_groups (getChars (opt_variant o)) (opt_lineLength o) bytes 0).2 |}.
Proof.
  unfold encode_main.
  pose proof (encode_loop_eq (getChars (opt_variant o)) (getChars_length _)
                (opt_lineLength o) (length bytes) [] bytes [] 0) as E.
  cbn [app length] in E. change (Z.of_nat 0) with 0 in E.
  rewrite E by lia. reflexivity.
Qed.

Lemma encode_eq bytes o :
  encode bytes o =
  encode_text (getChars (opt_variant o)) (opt_padding o) (opt_lineLength o) bytes.
Proof.
  unfold encode, encode_text. rewrite encode_main_eq.
  destruct (leftover_split bytes) as [pre [Heq Hlt]].
  assert (Hpre : (length bytes - length (leftover bytes))%nat = length pre).
  { rewrite Heq at 1. rewrite length_app. lia. }
  rewrite Hpre. rewrite Heq at 1.
  apply encode_tail_eq; auto using getChars_length, getChars_no_LF.
Qed.

(** ** Length of the unwrapped output *)

Lemma ceil_div_spec a b :
  0 < b -> (ceil_div a b - 1) * b < a <= ceil_div a b * b.
Proof.
  intros Hb. unfold ceil_div.
  pose proof (Z.div_mod (a + b - 1) b ltac:(lia)).
  pose proof (Z.mod_pos_bound (a + b - 1) b Hb). nia.
Qed.

Lemma full_groups_nowrap chars L a b c rest lcc :
  L <= 0 ->
  full_groups chars L (a :: b :: c :: rest) lcc =
  (quad chars (pack (byte_val a) (byte_val b) (byte_val c))
     ++ (full_groups chars L rest lcc).1,
   (full_groups chars L rest lcc).2).
Proof.
  intros HL. cbn [full_groups].
  rewrite bool_decide_eq_false_2 by lia. reflexivity.
Qed.

Lemma encode_text_length chars padding L bs :
  L <= 0 ->
  Z.of_nat (length (encode_text chars padding L bs)) =
  4 * (Z.of_nat (length bs) / 3) + tail_length padding (Z.of_nat (length bs) mod 3).
Proof.
  intros HL. unfold encode_text.
  induction bs as [| a | a b | a b c l IH] using list_ind3.
  - reflexivity.
  - cbn [full_groups fst leftover tail_text]. unfold wrap_text.
    rewrite (bool_decide_eq_false_2 (L > 0)) by lia.
    destruct padding; reflexivity.
  - cbn [full_groups fst leftover tail_text]. unfold wrap_text.
    rewrite (bool_decide_eq_false_2 (L > 0)) by lia.
    destruct padding; reflexivity.
  - rewrite full_groups_nowrap by assumption. cbn [fst leftover].
    rewrite <- app_assoc, length_app, Nat2Z.inj_add, IH.
    cbn [length quad].
    replace (Z.of_nat (S (S (S (length l))))) with (Z.of_nat (length l) + 1 * 3) by lia.
    rewrite Z.div_add, Z.mod_add by lia. lia.
Qed.

Lemma tail_length_padded r :
  0 <= r -> 4 * (r / 3) + tail_length true (r mod 3) = ceil_div r 3 * 4.
Proof.
  intros Hr. unfold tail_length, ceil_div.
  case_bool_decide; divmod.
Qed.

Lemma tail_length_unpadded r :
  0 <= r -> 4 * (r / 3) + tail_length false (r mod 3) = ceil_div (r * 4) 3.
Proof.
  intros Hr. unfold tail_length, ceil_div.
  repeat case_bool_decide; divmod.
Qed.

(** ** Characters of the output *)

Section Alphabet.

Variable chars : jsstring.
Hypothesis chars_length : length chars = 64%nat.

Lemma quad_in n : Forall (fun c => c ∈ chars) (quad chars n).
Proof.
  unfold quad.
  repeat constructor; apply symbol_in; auto using sextet_range.
Qed.

Lemma full_groups_chars L bs : forall lcc,
  Forall (fun c => c ∈ chars \/ c = CR \/ c = LF) (full_groups chars L bs lcc).1.
Proof.
  induction bs as [| a | a b | a b c l IH] using list_ind3; intros lcc;
    try (constructor; fail).
  assert (Hq : Forall (fun c => c ∈ chars \/ c = CR \/ c = LF)
                 (quad chars (pack (byte_val a) (byte_val b) (byte_val c)))).
  { eapply Forall_impl; [apply quad_in |]. intros x Hx. left. exact Hx. }
  assert (Ht : Forall (fun c => c ∈ chars \/ c = CR \/ c = LF) CRLF).
  { apply Forall_cons; split; [right; left; reflexivity |].
    apply Forall_cons; split; [right; right; reflexivity | constructor]. }
  cbn [full_groups].
  destruct (bool_decide (L > 0)); [destruct (bool_decide (lcc + 4 >= L)) |];
    cbn [fst]; rewrite ?Forall_app; repeat split; auto.
Qed.

Lemma full_groups_alphabet L bs : forall lcc,
  L <= 0 -> Forall (fun c => c ∈ chars) (full_groups chars L bs lcc).1.
Proof.
  induction bs as [| a | a b | a b c l IH] using list_ind3; intros lcc HL;
    try (constructor; fail).
  rewrite full_groups_nowrap by assumption. cbn [fst].
  apply Forall_app. split; [apply quad_in | apply IH, HL].
Qed.

Lemma pad_text_chars padding k : Forall (fun c => c = PAD) (pad_text padding k).
Proof.
  unfold pad_text. destruct padding; [| constructor].
  apply Forall_replicate. reflexivity.
Qed.

Lemma wrap_text_chars L : Forall (fun c => c = CR \/ c = LF) (wrap_text L).
Proof.
  unfold wrap_text. destruct (bool_decide (L > 0)); [| constructor].
  apply Forall_cons; split; [left; reflexivity |].
  apply Forall_cons; split; [right; reflexivity | constructor].
Qed.

Lemma tail_text_chars padding L bs :
  Forall (fun c => c ∈ chars \/ c = PAD \/ c = CR \/ c = LF)
    (tail_text chars padding L bs).
Proof.
  assert (Hp : forall k, Forall (fun c => c ∈ chars \/ c = PAD \/ c = CR \/ c = LF)
                 (pad_text padding k)).
  { intros k. eapply Forall_impl; [apply pad_text_chars |]. simpl. auto. }
  assert (Hw : Forall (fun c => c ∈ chars \/ c = PAD \/ c = CR \/ c = LF)
                 (wrap_text L)).
  { eapply Forall_impl; [apply wrap_text_chars |]. simpl. tauto. }
  destruct bs as [| b0 [| b1 [| b2 rest]]]; try (constructor; fail);
    unfold tail_text; repeat (apply Forall_app; split); auto;
    repeat (apply Forall_cons; split;
            [left; apply symbol_in; auto using sextet_range |]);
    constructor.
Qed.

Lemma tail_text_alphabet L bs :
  L <= 0 -> Forall (fun c => c ∈ chars) (tail_text chars false L bs).
Proof.
  intros HL.
  destruct bs as [| b0 [| b1 [| b2 rest]]]; try (constructor; fail);
    unfold tail_text, pad_text, wrap_text;
    rewrite bool_decide_eq_false_2 by lia; simpl;
    repeat constructor; apply symbol_in; auto using sextet_range.
Qed.

End Alphabet.

(** ** Claims about the unwrapped output *)

(** C4: with padding enabled and no line wrapping (either variant), the length
    of [encode b] is [ceil(length b / 3) * 4]. *)
Theorem encode_length_padded (bytes : list byte) (o : Base64Options) :
  opt_padding o = true -> opt_lineLength o = 0 ->
  Z.of_nat (length (encode bytes o)) = ceil_div (Z.of_nat (length bytes)) 3 * 4.
Proof.
  intros Hp HL. rewrite encode_eq, Hp, HL.
  rewrite encode_text_length by lia.
  apply tail_length_padded. lia.
Qed.

Lemma encode_length_padded_witness :
  opt_padding no_options = true /\ opt_lineLength no_options = 0 /\
  Z.of_nat (length (encode (ascii_bytes "Ma") no_options)) =
  ceil_div (Z.of_nat (length (ascii_bytes "Ma"))) 3 * 4.
Proof.
  split; [reflexivity |]. split; [reflexivity |].
  apply (encode_length_padded (ascii_bytes "Ma") no_options); reflexivity.
Defined.

(** C5: with padding disabled and no line wrapping (either variant), the
    output holds no '=' and its length is [ceil(length b * 4 / 3)], which is
    [4 * floor(length b / 3)] plus 2 for a 1-byte tail or 3 for a 2-byte tail. *)
Theorem encode_unpadded (bytes : list byte) (o : Base64Options) :
  opt_padding o = false -> opt_lineLength o = 0 ->
  (PAD ∉ encode bytes o) /\
  Z.of_nat (length (encode bytes o)) = ceil_div (Z.of_nat (length bytes) * 4) 3 /\
  Z.of_nat (length (encode bytes o)) =
    4 * (Z.of_nat (length bytes) / 3) +
    (if bool_decide (Z.of_nat (length bytes) mod 3 = 0) then 0
     else if bool_decide (Z.of_nat (length bytes) mod 3 = 1) then 2 else 3).
Proof.
  intros Hp HL. rewrite encode_eq, Hp, HL. split; [| split].
  - intros Hin.
    assert (Hall : Forall (fun c => c ∈ getChars (opt_variant o))
                     (encode_text (getChars (opt_variant o)) false 0 bytes)).
    { unfold encode_text. apply Forall_app. split.
      - apply full_groups_alphabet; [apply getChars_length | lia].
      - apply tail_text_alphabet; [apply getChars_length | lia]. }
    rewrite Forall_forall in Hall.
    exact (getChars_no_PAD _ (Hall _ Hin)).
  - rewrite encode_text_length by lia.
    apply tail_length_unpadded. lia.
  - rewrite encode_text_length by lia. reflexivity.
Qed.

Lemma encode_unpadded_witness :
  (PAD ∉ encode (ascii_bytes "Ma") (unpadded UrlSafe)) /\
  Z.of_nat (length (encode (ascii_bytes "Ma") (unpadded UrlSafe))) = 3.
Proof.
  destruct (encode_unpadded (ascii_bytes "Ma") (unpadded UrlSafe)
              eq_refl eq_refl) as [Hpad [Hlen _]].
  split; [exact Hpad | exact Hlen].
Defined.

(** C9: every character [encode] returns is a symbol of the selected
    alphabet, the pad '=', or one of the terminator characters; with padding
    disabled and no wrapping only alphabet symbols occur. *)
Theorem encode_charset (bytes : list byte) (o : Base64Options) :
  Forall (fun c => c ∈ getChars (opt_variant o) \/ c = PAD \/ c = CR \/ c = LF)
    (encode bytes o) /\
  (opt_padding o = false -> opt_lineLength o = 0 ->
   Forall (fun c => c ∈ getChars (opt_variant o)) (encode bytes o)).
Proof.
  rewrite encode_eq. unfold encode_text. split.
  - apply Forall_app. split.
    + eapply Forall_impl;
        [apply full_groups_chars, getChars_length |].
      simpl. tauto.
    + apply tail_text_chars, getChars_length.
  - intros Hp HL. rewrite Hp, HL. apply Forall_app. split.
    + apply full_groups_alphabet; [apply getChars_length | lia].
    + apply tail_text_alphabet; [apply getChars_length | lia].
Qed.

(** ** The two variants *)

Lemma URLSAFE_CHARS_map : URLSAFE_CHARS = map url_of STANDARD_CHARS.
Proof. reflexivity. Qed.

Section Renaming.

Variable f : ascii -> ascii.
Hypothesis f_PAD : f PAD = PAD.
Hypothesis f_CR : f CR = CR.
Hypothesis f_LF : f LF = LF.

Lemma symbol_map chars k : symbol (map f chars) k = f (symbol chars k).
Proof.
  unfold symbol. change (map f chars) with (f <$> chars).
  rewrite list_lookup_fmap.
  destruct (chars !! Z.to_nat k); simpl; [reflexivity | symmetry; exact f_PAD].
Qed.

Lemma quad_map chars n : quad (map f chars) n = map f (quad chars n).
Proof. unfold quad. rewrite !symbol_map. reflexivity. Qed.

Lemma full_groups_map chars L bs : forall lcc,
  full_groups (map f chars) L bs lcc =
  (map f (full_groups chars L bs lcc).1, (full_groups chars L bs lcc).2).
Proof.
  induction bs as [| a | a b | a b c l IH] using list_ind3; intros lcc;
    try reflexivity.
  cbn [full_groups].
  destruct (bool_decide (L > 0)); [destruct (bool_decide (lcc + 4 >= L)) |];
    rewrite IH, quad_map; cbn [fst snd]; rewrite !map_app; cbn [map CRLF];
    rewrite ?f_CR, ?f_LF; reflexivity.
Qed.

Lemma pad_text_map padding k : map f (pad_text padding k) = pad_text padding k.
Proof.
  unfold pad_text. destruct padding; [| reflexivity].
  induction k as [| k IH]; [reflexivity |].
  simpl. rewrite f_PAD. f_equal. exact IH.
Qed.

Lemma wrap_text_map L : map f (wrap_text L) = wrap_text L.
Proof.
  unfold wrap_text. destruct (bool_decide (L > 0)); [| reflexivity].
  cbn [map CRLF]. rewrite f_CR, f_LF. reflexivity.
Qed.

Lemma tail_text_map chars padding L bs :
  tail_text (map f chars) padding L bs = map f (tail_text chars padding L bs).
Proof.
  destruct bs as [| b0 [| b1 [| b2 rest]]]; try reflexivity;
    unfold tail_text; rewrite !symbol_map, !map_app, pad_text_map, wrap_text_map;
    reflexivity.
Qed.

Lemma encode_text_map chars padding L bs :
  encode_text (map f chars) padding L bs = map f (encode_text chars padding L bs).
Proof.
  unfold encode_text. rewrite full_groups_map, tail_text_map, map_app.
  reflexivity.
Qed.

End Renaming.

Lemma encode_urlsafe_map bytes o1 o2 :
  opt_variant o1 = Standard -> opt_variant o2 = UrlSafe ->
  opt_padding o1 = opt_padding o2 -> opt_lineLength o1 = opt_lineLength o2 ->
  encode bytes o2 = map url_of (encode bytes o1).
Proof.
  intros H1 H2 Hp HL. rewrite !encode_eq, H1, H2, Hp, HL.
  cbn [getChars]. rewrite URLSAFE_CHARS_map.
  apply encode_text_map; reflexivity.
Qed.

Lemma url_of_cases c :
  (c = "+"%char /\ url_of c = "-"%char) \/
  (c = "/"%char /\ url_of c = "_"%char) \/
  (c <> "+"%char /\ c <> "/"%char /\ url_of c = c).
Proof.
  unfold url_of.
  destruct (Ascii.eqb_spec c "+") as [-> | Hp]; [left; split; reflexivity |].
  destruct (Ascii.eqb_spec c "/") as [-> | Hs]; [right; left; split; reflexivity |].
  right; right. repeat split; assumption.
Qed.

(** C6: under one padding and line-length setting the Standard and the
    UrlSafe output have the same length; wherever they differ the Standard
    output has '+' and the UrlSafe output '-', or '/' and '_'; and every '+'
    or '/' of the Standard output is so replaced. *)
Theorem variant_divergence (bytes : list byte) (o1 o2 : Base64Options) :
  opt_variant o1 = Standard -> opt_variant o2 = UrlSafe ->
  opt_padding o1 = opt_padding o2 -> opt_lineLength o1 = opt_lineLength o2 ->
  length (encode bytes o2) = length (encode bytes o1) /\
  forall (i : nat) (c d : ascii),
    encode bytes o1 !! i = Some c -> encode bytes o2 !! i = Some d ->
    (c <> d -> (c = "+"%char /\ d = "-"%char) \/ (c = "/"%char /\ d = "_"%char)) /\
    (c = "+"%char -> d = "-"%char) /\
    (c = "/"%char -> d = "_"%char).
Proof.
  intros H1 H2 Hp HL.
  rewrite (encode_urlsafe_map bytes o1 o2 H1 H2 Hp HL).
  split; [apply length_map |].
  intros i c d Hc Hd.
  change (map url_of (encode bytes o1)) with (url_of <$> encode bytes o1) in Hd.
  rewrite list_lookup_fmap, Hc in Hd. simpl in Hd.
  injection Hd as <-.
  destruct (url_of_cases c) as [[-> ->] | [[-> ->] | [Hn1 [Hn2 ->]]]].
  - split; [| split]; intros H;
      [left; split; reflexivity | reflexivity | discriminate H].
  - split; [| split]; intros H;
      [right; split; reflexivity | discriminate H | reflexivity].
  - split; [| split]; intros H; congruence.
Qed.

Lemma variant_divergence_witness :
  length (encode [xfb; xff] (padded UrlSafe)) =
  length (encode [xfb; xff] (padded Standard)).
Proof.
  exact (proj1 (variant_divergence [xfb; xff] (padded Standard) (padded UrlSafe)
                  eq_refl eq_refl eq_refl eq_refl)).
Defined.

Example encode_fbff_standard : encode [xfb; xff] (padded Standard) = str "+/8=".
Proof. vm_compute. reflexivity. Qed.

Example encode_fbff_urlsafe : encode [xfb; xff] (padded UrlSafe) = str "-_8=".
Proof. vm_compute. reflexivity. Qed.

(** ** Line structure of the wrapped output *)

Lemma join_lines_cons l lines : join_lines (l :: lines) = l ++ CRLF ++ join_lines lines.
Proof. unfold join_lines. simpl. rewrite <- app_assoc. reflexivity. Qed.

Lemma wrap_line_length L lcc :
  0 <= lcc < L -> lcc mod 4 = 0 -> lcc + 4 >= L -> lcc + 4 = 4 * ceil_div L 4.
Proof.
  intros Hl Hm Hge. unfold ceil_div. divmod.
Qed.

Section Lines.

Variable chars : jsstring.
Hypothesis chars_length : length chars = 64%nat.
Hypothesis chars_no_CR : CR ∉ chars.
Hypothesis chars_no_LF : LF ∉ chars.

Lemma symbol_line_char k : 0 <= k < 64 -> line_char chars (symbol chars k).
Proof.
  intros Hk. pose proof (symbol_in chars chars_length k Hk) as Hin.
  split; [left; exact Hin |].
  split; intros Heq; rewrite Heq in Hin; auto.
Qed.

Lemma PAD_line_char : line_char chars PAD.
Proof. split; [right; reflexivity |]. split; discriminate. Qed.

Lemma quad_line_chars n : Forall (line_char chars) (quad chars n).
Proof.
  unfold quad.
  repeat (apply Forall_cons; split;
          [apply symbol_line_char, sextet_range |]).
  constructor.
Qed.

(** The text built by the main loop is a sequence of terminated lines of
    [4 * ceil(L / 4)] symbols, followed by a shorter run of whole groups. *)
Lemma full_groups_lines L bs : 0 < L -> forall lcc cur,
  0 <= lcc < L -> lcc mod 4 = 0 ->
  Z.of_nat (length cur) = lcc -> Forall (line_char chars) cur ->
  exists lines rest,
    cur ++ (full_groups chars L bs lcc).1 = join_lines lines ++ rest /\
    Forall (fun l => Forall (line_char chars) l /\
                     Z.of_nat (length l) = 4 * ceil_div L 4) lines /\
    Forall (line_char chars) rest /\
    Z.of_nat (length rest) = (full_groups chars L bs lcc).2 /\
    0 <= (full_groups chars L bs lcc).2 < L /\
    (full_groups chars L bs lcc).2 mod 4 = 0.
Proof.
  intros HL.
  induction bs as [| a | a b | a b c l IH] using list_ind3;
    intros lcc cur Hlcc Hmod Hlen Hcur;
    try (exists [], cur; cbn [full_groups fst snd join_lines map concat];
         rewrite app_nil_r; repeat split; auto; lia).
  cbn [full_groups]. rewrite (bool_decide_eq_true_2 (L > 0)) by lia.
  set (q := quad chars (pack (byte_val a) (byte_val b) (byte_val c))).
  assert (Hq : Forall (line_char chars) q) by apply quad_line_chars.
  assert (Hql : length q = 4%nat) by reflexivity.
  case_bool_decide as Hwrap; cbn [fst snd].
  - destruct (IH 0 []) as (lines & rest & Heq & Hlines & Hrest & Hlr & Hr & Hm);
      [lia | reflexivity | reflexivity | constructor |].
    exists ((cur ++ q) :: lines), rest.
    split; [| split; [| split; [| split; [| split]]]]; auto.
    + rewrite join_lines_cons. cbn [app] in Heq. rewrite Heq.
      rewrite <- !app_assoc. reflexivity.
    + apply Forall_cons; split; [| exact Hlines].
      split; [apply Forall_app; split; assumption |].
      rewrite length_app, Nat2Z.inj_add, Hlen, Hql.
      apply wrap_line_length; assumption.
  - destruct (IH (lcc + 4) (cur ++ q))
      as (lines & rest & Heq & Hlines & Hrest & Hlr & Hr & Hm).
    + lia.
    + rewrite <- Hmod. change 4 with (1 * 4) at 1. apply Z.mod_add. lia.
    + rewrite length_app, Nat2Z.inj_add, Hlen, Hql. reflexivity.
    + apply Forall_app; split; assumption.
    + exists lines, rest.
      split; [| split; [| split; [| split; [| split]]]]; auto.
      rewrite <- Heq, <- app_assoc. reflexivity.
Qed.

Lemma pad_text_line padding k : Forall (line_char chars) (pad_text padding k).
Proof.
  unfold pad_text. destruct padding; [| constructor].
  apply Forall_replicate, PAD_line_char.
Qed.

(** The tail adds nothing, or two to four line characters and, when wrapping
    is on, one terminator. *)
Lemma tail_text_line padding L bs :
  0 < L ->
  exists t (terminated : bool),
    tail_text chars padding L bs = t ++ (if terminated then CRLF else []) /\
    Forall (line_char chars) t /\ (length t <= 4)%nat /\
    (if terminated then (2 <= length t)%nat else t = []).
Proof.
  intros HL.
  destruct bs as [| b0 [| b1 [| b2 rest]]];
    try (exists [], false; repeat split; [constructor | simpl; lia]).
  - exists ([symbol chars (sextet (pack (byte_val b0) 0 0) 18);
             symbol chars (sextet (pack (byte_val b0) 0 0) 12)]
              ++ pad_text padding 2), true.
    unfold tail_text, wrap_text. rewrite bool_decide_eq_true_2 by lia.
    split; [rewrite <- app_assoc; reflexivity |]. split; [| split].
    + apply Forall_app. split.
      * repeat (apply Forall_cons; split;
                [apply symbol_line_char, sextet_range |]). constructor.
      * apply pad_text_line.
    + destruct padding; simpl; lia.
    + destruct padding; simpl; lia.
  - exists ([symbol chars (sextet (pack (byte_val b0) (byte_val b1) 0) 18);
             symbol chars (sextet (pack (byte_val b0) (byte_val b1) 0) 12);
             symbol chars (sextet (pack (byte_val b0) (byte_val b1) 0) 6)]
              ++ pad_text padding 1), true.
    unfold tail_text, wrap_text. rewrite bool_decide_eq_true_2 by lia.
    split; [rewrite <- app_assoc; reflexivity |]. split; [| split].
    + apply Forall_app. split.
      * repeat (apply Forall_cons; split;
                [apply symbol_line_char, sextet_range |]). constructor.
      * apply pad_text_line.
    + destruct padding; simpl; lia.
    + destruct padding; simpl; lia.
Qed.

End Lines.

Lemma encode_lines bytes o :
  0 < opt_lineLength o ->
  exists lines rest,
    enc_base64 (encode_main bytes o) = join_lines lines ++ rest /\
    Forall (fun l => Forall (line_char (getChars (opt_variant o))) l /\
                     Z.of_nat (length l) = 4 * ceil_div (opt_lineLength o) 4)
           lines /\
    Forall (line_char (getChars (opt_variant o))) rest /\
    0 <= Z.of_nat (length rest) < opt_lineLength o /\
    Z.of_nat (length rest) mod 4 = 0.
Proof.
  intros HL. rewrite encode_main_eq. cbn [enc_base64].
  destruct (full_groups_lines (getChars (opt_variant o))
              (getChars_length _) (getChars_no_CR _) (getChars_no_LF _)
              (opt_lineLength o) bytes HL 0 [])
    as (lines & rest & Heq & Hlines & Hrest & Hlr & Hr & Hm);
    [lia | reflexivity | reflexivity | constructor |].
  exists lines, rest. cbn [app] in Heq.
  rewrite Hlr. repeat split; auto; lia.
Qed.

Lemma encode_main_tail bytes o :
  encode bytes o =
  enc_base64 (encode_main bytes o) ++
  tail_text (getChars (opt_variant o)) (opt_padding o) (opt_lineLength o)
    (leftover bytes).
Proof. rewrite encode_eq, encode_main_eq. reflexivity. Qed.

(** C7: with [lineLength = 76] the output is a sequence of lines of exactly
    76 symbols, each followed by the terminator, and then one last segment of
    at most 76 symbols.  The last segment carries a terminator of its own
    exactly when the input has a tail (it then holds at least the two symbols
    of the tail); nothing follows that terminator. *)
Theorem encode_wrap_76 (bytes : list byte) (o : Base64Options) :
  opt_lineLength o = 76 ->
  exists (lines : list (list ascii)) (last : list ascii) (terminated : bool),
    encode bytes o =
      join_lines lines ++ last ++ (if terminated then CRLF else []) /\
    Forall (fun l => Forall (line_char (getChars (opt_variant o))) l /\
                     length l = 76%nat) lines /\
    Forall (line_char (getChars (opt_variant o))) last /\
    (length last <= 76)%nat /\
    (terminated = true -> (2 <= length last)%nat).
Proof.
  intros HL.
  destruct (encode_lines bytes o) as (lines & rest & Heq & Hlines & Hrest & Hr & Hm);
    [lia |].
  destruct (tail_text_line (getChars (opt_variant o))
              (getChars_length _) (getChars_no_CR _) (getChars_no_LF _)
              (opt_padding o) (opt_lineLength o) (leftover bytes))
    as (t & terminated & Ht & Htc & Htl & Htt); [lia |].
  exists lines, (rest ++ t), terminated.
  split; [| split; [| split; [| split]]].
  - rewrite encode_main_tail, Heq, Ht, <- !app_assoc. reflexivity.
  - eapply Forall_impl; [exact Hlines |].
    intros l [Hl Hlen]. split; [exact Hl |].
    rewrite HL in Hlen. change (ceil_div 76 4) with 19 in Hlen. lia.
  - apply Forall_app. split; assumption.
  - rewrite length_app. rewrite HL in Hr.
    assert (Z.of_nat (length rest) <= 72)
      by (divmod).
    lia.
  - intros ->. rewrite length_app. lia.
Qed.

Lemma encode_wrap_76_witness :
  exists (lines : list (list ascii)) (last : list ascii) (terminated : bool),
    encode (ascii_bytes "Many hands make light work, and every line of output is wrapped.")
           (wrapped Standard true 76) =
      join_lines lines ++ last ++ (if terminated then CRLF else []) /\
    Forall (fun l => Forall (line_char STANDARD_CHARS) l /\ length l = 76%nat) lines /\
    Forall (line_char STANDARD_CHARS) last /\
    (length last <= 76)%nat /\
    (terminated = true -> (2 <= length last)%nat).
Proof.
  exact (encode_wrap_76 _ (wrapped Standard true 76) eq_refl).
Defined.

(** The tail is two to four line characters followed by one terminator, or
    nothing when the input has no tail. *)
Lemma tail_text_parts v p L bs :
  0 < L ->
  exists t,
    tail_text (getChars v) p L (leftover bs) =
      t ++ (if bool_decide (Z.of_nat (length bs) mod 3 = 0) then [] else CRLF) /\
    Forall (line_char (getChars v)) t /\
    Z.of_nat (length t) = tail_length p (Z.of_nat (length bs) mod 3).
Proof.
  intros HL.
  assert (Hmod : Z.of_nat (length bs) mod 3 = Z.of_nat (length (leftover bs))).
  { rewrite leftover_length, Nat2Z.inj_mod. reflexivity. }
  rewrite Hmod. pose proof (leftover_split bs) as [_ [_ Hlt]].
  assert (Hs : forall k, line_char (getChars v) (symbol (getChars v) (sextet k.1 k.2))).
  { intros k. apply symbol_line_char;
      auto using getChars_length, getChars_no_CR, getChars_no_LF, sextet_range. }
  unfold tail_length.
  destruct (leftover bs) as [| b0 [| b1 [| b2 rest]]]; [| | | simpl in Hlt; lia].
  - exists []. repeat split. constructor.
  - exists ([symbol (getChars v) (sextet (pack (byte_val b0) 0 0) 18);
             symbol (getChars v) (sextet (pack (byte_val b0) 0 0) 12)]
              ++ pad_text p 2).
    unfold tail_text, wrap_text. rewrite (bool_decide_eq_true_2 (L > 0)) by lia.
    rewrite !bool_decide_eq_false_2 by (simpl; lia).
    rewrite (bool_decide_eq_true_2 (Z.of_nat (length [b0]) = 1)) by reflexivity.
    split; [rewrite <- app_assoc; reflexivity |]. split.
    + apply Forall_app. split; [| apply pad_text_line].
      apply Forall_cons; split; [apply (Hs (_, _)) |].
      apply Forall_cons; split; [apply (Hs (_, _)) | constructor].
    + destruct p; reflexivity.
  - exists ([symbol (getChars v) (sextet (pack (byte_val b0) (byte_val b1) 0) 18);
             symbol (getChars v) (sextet (pack (byte_val b0) (byte_val b1) 0) 12);
             symbol (getChars v) (sextet (pack (byte_val b0) (byte_val b1) 0) 6)]
              ++ pad_text p 1).
    unfold tail_text, wrap_text. rewrite (bool_decide_eq_true_2 (L > 0)) by lia.
    rewrite !bool_decide_eq_false_2 by (simpl; lia).
    split; [rewrite <- app_assoc; reflexivity |]. split.
    + apply Forall_app. split; [| apply pad_text_line].
      apply Forall_cons; split; [apply (Hs (_, _)) |].
      apply Forall_cons; split; [apply (Hs (_, _)) |].
      apply Forall_cons; split; [apply (Hs (_, _)) | constructor].
    + destruct p; reflexivity.
Qed.

(** C10 (as amended): for a line length [L > 0] that is not a multiple of 4,
    the output of [encode] consists of
    - the lines ended by the main loop: each holds whole 4-symbol groups and
      is ended at the first group that brings the count to [L] or more, so it
      has [4 * ceil(L / 4)] symbols, between [L + 1] and [L + 3];
    - the whole groups after the last of these terminators, fewer than [L]
      symbols;
    - the symbols of the tail (4 with padding, 2 or 3 without), and
    - when the input length is not a multiple of 3, one more terminator,
      appended after the tail whatever the count on that line.
    The first two parts are the text built by the main loop. *)
Theorem encode_terminators (bytes : list byte) (o : Base64Options) :
  0 < opt_lineLength o -> opt_lineLength o mod 4 <> 0 ->
  exists (lines : list (list ascii)) (rest tail : list ascii),
    encode bytes o =
      join_lines lines ++ rest ++ tail ++
      (if bool_decide (Z.of_nat (length bytes) mod 3 = 0) then [] else CRLF) /\
    enc_base64 (encode_main bytes o) = join_lines lines ++ rest /\
    Forall (fun l =>
              Forall (line_char (getChars (opt_variant o))) l /\
              Z.of_nat (length l) mod 4 = 0 /\
              Z.of_nat (length l) - 4 < opt_lineLength o <= Z.of_nat (length l) /\
              Z.of_nat (length l) = 4 * ceil_div (opt_lineLength o) 4 /\
              opt_lineLength o < Z.of_nat (length l) <= opt_lineLength o + 3)
           lines /\
    Forall (line_char (getChars (opt_variant o))) rest /\
    Z.of_nat (length rest) mod 4 = 0 /\
    Z.of_nat (length rest) < opt_lineLength o /\
    Forall (line_char (getChars (opt_variant o))) tail /\
    Z.of_nat (length tail) =
      tail_length (opt_padding o) (Z.of_nat (length bytes) mod 3).
Proof.
  intros HL Hnm.
  destruct (encode_lines bytes o HL)
    as (lines & rest & Heq & Hlines & Hrest & Hr & Hm).
  destruct (tail_text_parts (opt_variant o) (opt_padding o) (opt_lineLength o)
              bytes HL) as (t & Ht & Htc & Htl).
  exists lines, rest, t.
  split; [rewrite encode_main_tail, Heq, Ht, <- !app_assoc; reflexivity |].
  split; [exact Heq |].
  split; [| split; [exact Hrest | split; [exact Hm | split; [lia | split; assumption]]]].
  eapply Forall_impl; [exact Hlines |].
  intros l [Hl Hlen]. split; [exact Hl |].
  unfold ceil_div in *. divmod.
Qed.

Lemma encode_terminators_witness :
  exists (lines : list (list ascii)) (rest tail : list ascii),
    encode (ascii_bytes "ManManM") (wrapped Standard false 5) =
      join_lines lines ++ rest ++ tail ++
      (if bool_decide (Z.of_nat (length (ascii_bytes "ManManM")) mod 3 = 0)
       then [] else CRLF) /\
    enc_base64 (encode_main (ascii_bytes "ManManM") (wrapped Standard false 5)) =
      join_lines lines ++ rest /\
    Forall (fun l =>
              Forall (line_char STANDARD_CHARS) l /\
              Z.of_nat (length l) mod 4 = 0 /\
              Z.of_nat (length l) - 4 < 5 <= Z.of_nat (length l) /\
              Z.of_nat (length l) = 4 * ceil_div 5 4 /\
              5 < Z.of_nat (length l) <= 5 + 3)
           lines /\
    Forall (line_char STANDARD_CHARS) rest /\
    Z.of_nat (length rest) mod 4 = 0 /\
    Z.of_nat (length rest) < 5 /\
    Forall (line_char STANDARD_CHARS) tail /\
    Z.of_nat (length tail) =
      tail_length false (Z.of_nat (length (ascii_bytes "ManManM")) mod 3).
Proof.
  apply (encode_terminators (ascii_bytes "ManManM") (wrapped Standard false 5)).
  - reflexivity.
  - discriminate.
Defined.

(** C10 (the claim as stated fails): for the one-byte input "M" without
    padding and with [lineLength = 5], [encode] returns "TQ" followed by the
    terminator: a line of two symbols, neither a whole group nor [L] symbols
    long, is terminated by the tail (lines 87-89). *)
Lemma wrap_after_partial_group :
  encode (ascii_bytes "M") (wrapped Standard false 5) = str "TQ" ++ CRLF /\
  ~ claimed_wrap_rule 5 (encode (ascii_bytes "M") (wrapped Standard false 5)).
Proof.
  split; [vm_compute; reflexivity |].
  intros H. specialize (H [str "TQ"] []).
  assert (Hl : Forall (fun l => Z.of_nat (length l) mod 4 = 0 /\
                                5 <= Z.of_nat (length l)) [str "TQ"]).
  { apply H; [vm_compute; reflexivity |].
    apply Forall_cons; split; [| constructor].
    apply Forall_cons; split; [split; discriminate |].
    apply Forall_cons; split; [split; discriminate | constructor]. }
  apply Forall_cons in Hl. destruct Hl as [[Hmod _] _].
  vm_compute in Hmod. discriminate Hmod.
Qed.

Example encode_wrap_tail_after_line :
  encode (ascii_bytes "ManM") (wrapped Standard false 7) =
  str "TWFuTQ" ++ CRLF.
Proof. vm_compute. reflexivity. Qed.

Example encode_wrap_76_tail :
  encode (replicate 58 Byte.x00) (wrapped Standard true 76) =
  replicate 76 "A"%char ++ CRLF ++ str "AA==" ++ CRLF.
Proof. vm_compute. reflexivity. Qed.

Example encode_wrap_5 :
  encode (ascii_bytes "ManManM") (wrapped Standard true 5) =
  str "TWFuTWFu" ++ CRLF ++ str "TQ==" ++ CRLF.
Proof. vm_compute. reflexivity. Qed.

(** ** The alphabets and the reverse lookup *)

Lemma createLookup_loop_other chars fuel : forall i m (k : list ascii),
  0 <= i ->
  (forall (j : nat) c, i <= Z.of_nat j -> chars !! j = Some c -> k <> [c]) ->
  createLookup_loop fuel chars i m !! k = m !! k.
Proof.
  induction fuel as [| fuel IH]; intros i m k Hi Hk; [reflexivity |].
  cbn [createLookup_loop]. case_bool_decide as Hlt; [| reflexivity].
  rewrite IH; [| lia | intros j c Hj; apply Hk; lia].
  apply lookup_insert_ne.
  unfold JS.char_at. rewrite bool_decide_eq_true_2 by lia.
  destruct (lookup_lt_is_Some_2 chars (Z.to_nat i)) as [c Hc]; [lia |].
  rewrite Hc. simpl. intros Heq. symmetry in Heq. revert Heq.
  apply (Hk (Z.to_nat i)); [lia | exact Hc].
Qed.

Lemma createLookup_loop_hit chars fuel : NoDup chars -> forall i m (j : nat) c,
  0 <= i <= Z.of_nat j -> chars !! j = Some c ->
  (j < fuel + Z.to_nat i)%nat ->
  createLookup_loop fuel chars i m !! [c] = Some (Z.of_nat j).
Proof.
  intros Hnd.
  induction fuel as [| fuel IH]; intros i m j c Hi Hc Hfuel; [lia |].
  pose proof (lookup_lt_Some _ _ _ Hc) as Hj.
  cbn [createLookup_loop]. rewrite bool_decide_eq_true_2 by lia.
  destruct (decide (i = Z.of_nat j)) as [-> | Hne].
  - rewrite createLookup_loop_other.
    + rewrite char_at_nat, Hc. simpl. apply lookup_insert_eq.
    + lia.
    + intros j' c' Hj' Hc' [= <-].
      pose proof (NoDup_lookup _ _ _ _ Hnd Hc Hc'). lia.
  - apply IH; [lia | exact Hc | lia].
Qed.

Lemma createLookup_hit v (j : nat) c :
  getChars v !! j = Some c -> createLookup v !! [c] = Some (Z.of_nat j).
Proof.
  intros Hc. unfold createLookup.
  apply createLookup_loop_hit; [apply getChars_NoDup | lia | exact Hc |].
  pose proof (lookup_lt_Some _ _ _ Hc). simpl. lia.
Qed.

Lemma createLookup_miss v (k : list ascii) :
  (forall c, c ∈ getChars v -> k <> [c]) -> createLookup v !! k = None.
Proof.
  intros Hk. unfold createLookup.
  rewrite createLookup_loop_other; [apply lookup_empty | lia |].
  intros j c _ Hc. apply Hk. eapply list_elem_of_lookup_2. exact Hc.
Qed.

(** C8: each alphabet has exactly 64 distinct symbols; the two alphabets agree
    on positions 0 to 61 and hold '+', '/' and '-', '_' at 62 and 63; the
    lookup maps the symbol at index [i] back to [i]; and a key that is not a
    symbol of the alphabet is absent from it. *)
Theorem alphabet_and_lookup (v : Base64Variant) :
  length (getChars v) = 64%nat /\
  NoDup (getChars v) /\
  take 62 (getChars Standard) = take 62 (getChars UrlSafe) /\
  drop 62 (getChars Standard) = str "+/" /\
  drop 62 (getChars UrlSafe) = str "-_" /\
  (forall i : Z, 0 <= i < 64 ->
     exists c, JS.char_at (getChars v) i = Some c /\
               createLookup v !! JS.to_key (Some c) = Some i) /\
  (forall c : ascii, c ∉ getChars v -> createLookup v !! JS.to_key (Some c) = None) /\
  createLookup v !! JS.to_key None = None.
Proof.
  split; [apply getChars_length |].
  split; [apply getChars_NoDup |].
  split; [reflexivity |]. split; [reflexivity |]. split; [reflexivity |].
  split; [| split].
  - intros i Hi.
    exists (symbol (getChars v) i).
    pose proof (char_at_symbol _ (getChars_length v) i Hi) as Hc.
    split; [exact Hc |].
    unfold JS.char_at in Hc. rewrite bool_decide_eq_true_2 in Hc by lia.
    cbn [JS.to_key]. rewrite (createLookup_hit v _ _ Hc). f_equal. lia.
  - intros c Hc. apply createLookup_miss.
    intros c' Hin [= ->]. exact (Hc Hin).
  - apply createLookup_miss. intros c _. discriminate.
Qed.

Example lookup_slash : createLookup Standard !! str "/" = Some 63.
Proof. vm_compute. reflexivity. Qed.

Example lookup_slash_urlsafe : createLookup UrlSafe !! str "/" = None.
Proof. vm_compute. reflexivity. Qed.

(** ** Sanitization *)

Lemma regex_class_standard c :
  regex_class Standard c = bool_decide (c ∈ STANDARD_CHARS \/ c = PAD).
Proof.
  destruct c as [[] [] [] [] [] [] [] []]; vm_compute; reflexivity.
Qed.

Lemma regex_class_urlsafe c :
  regex_class UrlSafe c = bool_decide (c ∈ URLSAFE_CHARS).
Proof.
  destruct c as [[] [] [] [] [] [] [] []]; vm_compute; reflexivity.
Qed.

Lemma filter_ext_list {A} (P Q : A -> Prop)
    `{forall x, Decision (P x)} `{forall x, Decision (Q x)} (l : list A) :
  (forall x, P x <-> Q x) -> filter P l = filter Q l.
Proof.
  intros HPQ. induction l as [| x l IH]; [reflexivity |].
  rewrite !filter_cons, IH.
  destruct (decide (P x)) as [HP | HP], (decide (Q x)) as [HQ | HQ];
    try reflexivity; exfalso; rewrite HPQ in HP; contradiction.
Qed.

Lemma filter_all {A} (P : A -> Prop) `{forall x, Decision (P x)} (l : list A) :
  Forall P l -> filter P l = l.
Proof.
  induction 1 as [| x l Hx Hl IH]; [reflexivity |].
  rewrite filter_cons, decide_True by assumption. f_equal. exact IH.
Qed.

Lemma filter_none {A} (P : A -> Prop) `{forall x, Decision (P x)} (l : list A) :
  Forall (fun x => ~ P x) l -> filter P l = [].
Proof.
  induction 1 as [| x l Hx Hl IH]; [reflexivity |].
  rewrite filter_cons, decide_False by assumption. exact IH.
Qed.

(** X4: for the Standard variant the regular expression keeps exactly the
    alphabet and '='. *)
Lemma sanitize_standard s : sanitize Standard s = spec_sanitize Standard s.
Proof.
  unfold sanitize, spec_sanitize. apply filter_ext_list. intros c.
  rewrite regex_class_standard. cbn [getChars].
  split; [apply bool_decide_unpack | apply bool_decide_pack].
Qed.

(** X5: for the UrlSafe variant it keeps the alphabet only: '=' is deleted. *)
Lemma sanitize_urlsafe s :
  sanitize UrlSafe s = filter (fun c => c ∈ URLSAFE_CHARS) s.
Proof.
  unfold sanitize. apply filter_ext_list. intros c.
  rewrite regex_class_urlsafe.
  split; [apply bool_decide_unpack | apply bool_decide_pack].
Qed.

(** ** The decoding loop computes [decoded] *)

Lemma createLookup_loop_range chars fuel : forall i m,
  0 <= i ->
  (forall k x, m !! k = Some x -> 0 <= x < Z.of_nat (length chars)) ->
  forall k x, createLookup_loop fuel chars i m !! k = Some x ->
              0 <= x < Z.of_nat (length chars).
Proof.
  induction fuel as [| fuel IH]; intros i m Hi Hm k x; [apply Hm |].
  cbn [createLookup_loop]. case_bool_decide as Hlt; [| apply Hm].
  apply IH; [lia |].
  intros k' x'. rewrite lookup_insert. case_decide.
  - intros [= <-]. lia.
  - apply Hm.
Qed.

Lemma digit_range v s i : 0 <= digit (createLookup v) s i < 64.
Proof.
  unfold digit.
  destruct (createLookup v !! JS.to_key (JS.char_at s i)) as [x |] eqn:E;
    simpl; [| lia].
  change 64 with (Z.of_nat 64). rewrite <- (getChars_length v).
  apply (createLookup_loop_range (getChars v) (length (getChars v)) 0 ∅
           ltac:(lia)) with (k := JS.to_key (JS.char_at s i)); [| exact E].
  intros k' x'. rewrite lookup_empty. discriminate.
Qed.

Lemma shl_digit d k :
  0 <= d < 64 -> 0 <= k <= 18 -> JS.shl d k = d * 2 ^ k.
Proof.
  intros Hd Hk. unfold JS.shl.
  rewrite (ToInt32_small d) by lia.
  rewrite (Z.mod_small k 32) by lia.
  rewrite Z.shiftl_mul_pow2 by lia.
  apply ToInt32_small.
  assert (0 < 2 ^ k <= 2 ^ 18).
  { split; [apply Z.pow_pos_nonneg; lia | apply Z.pow_le_mono_r; lia]. }
  nia.
Qed.

Lemma word_range v s i : 0 <= word (createLookup v) s i < 2 ^ 24.
Proof.
  unfold word.
  pose proof (digit_range v s i). pose proof (digit_range v s (i + 1)).
  pose proof (digit_range v s (i + 2)). pose proof (digit_range v s (i + 3)).
  lia.
Qed.

Lemma decode_combined_eq v s i :
  decode_combined (createLookup v) s i = (word (createLookup v) s i, i + 4).
Proof.
  unfold decode_combined. cbn [foldl]. fold (digit (createLookup v) s i).
  fold (digit (createLookup v) s (i + 1)).
  fold (digit (createLookup v) s (i + 1 + 1)).
  fold (digit (createLookup v) s (i + 1 + 1 + 1)).
  replace (i + 1 + 1) with (i + 2) by lia.
  replace (i + 2 + 1) with (i + 3) by lia.
  replace (i + 3 + 1) with (i + 4) by lia.
  f_equal. unfold word.
  pose proof (digit_range v s i) as H0. pose proof (digit_range v s (i + 1)) as H1.
  pose proof (digit_range v s (i + 2)) as H2. pose proof (digit_range v s (i + 3)) as H3.
  set (d0 := digit (createLookup v) s i) in *.
  set (d1 := digit (createLookup v) s (i + 1)) in *.
  set (d2 := digit (createLookup v) s (i + 2)) in *.
  set (d3 := digit (createLookup v) s (i + 3)) in *.
  change (3 * 6) with 18. change (2 * 6) with 12. change (1 * 6) with 6.
  change (0 * 6) with 0.
  rewrite !shl_digit by lia. rewrite Z.pow_0_r, Z.mul_1_r.
  unfold JS.bor.
  rewrite (ToInt32_small 0), (ToInt32_small (d0 * 2 ^ 18)) by lia.
  rewrite Z.lor_0_l.
  rewrite (ToInt32_small (d0 * 2 ^ 18)), (ToInt32_small (d1 * 2 ^ 12)) by lia.
  rewrite (lor_high_low d0 (d1 * 2 ^ 12) 18) by lia.
  rewrite (ToInt32_small (d0 * 2 ^ 18 + d1 * 2 ^ 12)),
          (ToInt32_small (d2 * 2 ^ 6)) by lia.
  replace (d0 * 2 ^ 18 + d1 * 2 ^ 12) with ((d0 * 2 ^ 6 + d1) * 2 ^ 12) by lia.
  rewrite (lor_high_low _ (d2 * 2 ^ 6) 12) by lia.
  rewrite (ToInt32_small ((d0 * 2 ^ 6 + d1) * 2 ^ 12 + d2 * 2 ^ 6)),
          (ToInt32_small d3) by lia.
  replace ((d0 * 2 ^ 6 + d1) * 2 ^ 12 + d2 * 2 ^ 6)
    with ((d0 * 2 ^ 12 + d1 * 2 ^ 6 + d2) * 2 ^ 6) by lia.
  rewrite (lor_high_low _ d3 6) by lia. lia.
Qed.

Lemma band_sar_byte n k :
  0 <= n < 2 ^ 24 -> 0 <= k < 32 ->
  JS.band (JS.sar n k) 255 = (n / 2 ^ k) mod 256.
Proof.
  intros Hn Hk. unfold JS.band, JS.sar.
  rewrite (ToInt32_small n) by lia.
  rewrite (Z.mod_small k 32) by lia.
  rewrite Z.shiftr_div_pow2 by lia.
  assert (0 <= n / 2 ^ k < 2 ^ 24).
  { split; [apply Z.div_pos; lia |].
    apply Z.div_lt_upper_bound; [lia |].
    assert (1 <= 2 ^ k) by (apply (Z.pow_le_mono_r 2 0 k); lia). nia. }
  rewrite ToInt32_small, (ToInt32_small 255) by lia.
  change 255 with (Z.ones 8). rewrite Z.land_ones by lia. reflexivity.
Qed.

Lemma band_byte n : 0 <= n < 2 ^ 24 -> JS.band n 255 = n mod 256.
Proof.
  intros Hn. unfold JS.band.
  rewrite ToInt32_small, (ToInt32_small 255) by lia.
  change 255 with (Z.ones 8). rewrite Z.land_ones by lia. reflexivity.
Qed.

Lemma ToUint8_mod x : JS.ToUint8 (x mod 256) = JS.ToUint8 x.
Proof. unfold JS.ToUint8. rewrite Z.mod_mod by lia. reflexivity. Qed.

Lemma ToUint8_byte_val b : JS.ToUint8 (byte_val b) = b.
Proof.
  unfold JS.ToUint8. pose proof (byte_val_range b).
  rewrite Z.mod_small by lia. unfold byte_val.
  rewrite N2Z.id, Byte.of_to_N. reflexivity.
Qed.

(** Offering one more byte to the array. *)
Lemma store_byte_view (N : nat) (D : list byte) x :
  store_byte (Z.of_nat N) x (dec_view N D) = dec_view N (D ++ [JS.ToUint8 x]).
Proof.
  unfold store_byte, dec_view. rewrite length_app. cbn [length].
  destruct (decide (length D < N)%nat) as [Hlt | Hge].
  - rewrite bool_decide_eq_true_2 by lia.
    f_equal; [lia |].
    unfold JS.u8_store. rewrite bool_decide_eq_true_2 by lia.
    rewrite Nat2Z.id, Nat.min_l by lia.
    rewrite !take_ge by (rewrite ?length_app; simpl; lia).
    rewrite insert_app_r_alt by lia. rewrite Nat.sub_diag.
    replace (N - length D)%nat with (S (N - (length D + 1))) by lia.
    cbn [replicate]. rewrite <- app_assoc. reflexivity.
  - rewrite bool_decide_eq_false_2 by lia.
    f_equal; [lia |].
    rewrite take_app_le by lia.
    replace (N - length D)%nat with 0%nat by lia.
    replace (N - (length D + 1))%nat with 0%nat by lia. reflexivity.
Qed.

Lemma decode_body_eq v s (N : nat) (k : nat) :
  decode_body (createLookup v) s (Z.of_nat N) (dec_at (createLookup v) s N k) =
  dec_at (createLookup v) s N (S k).
Proof.
  unfold decode_body, dec_at. cbn [dec_i dec_byteIndex dec_bytes].
  rewrite decode_combined_eq.
  pose proof (word_range v s (4 * Z.of_nat k)) as Hw.
  rewrite !band_sar_byte, band_byte by (assumption || lia).
  rewrite <- surjective_pairing.
  rewrite !store_byte_view, <- !app_assoc. cbn [app].
  rewrite !ToUint8_mod.
  cbn [decoded]. unfold word_bytes. rewrite !ToUint8_mod.
  f_equal. lia.
Qed.

Lemma group_count_lt s (k : nat) :
  4 * Z.of_nat k < Z.of_nat (length s) <-> (k < group_count s)%nat.
Proof.
  unfold group_count, ceil_div.
  split; intros H.
  - apply Nat2Z.inj_lt. rewrite Z2Nat.id by (divmod).
    divmod.
  - apply Nat2Z.inj_lt in H. rewrite Z2Nat.id in H by (divmod).
    divmod.
Qed.

Lemma group_count_le s : (group_count s <= length s)%nat.
Proof.
  unfold group_count, ceil_div.
  apply Nat2Z.inj_le. rewrite Z2Nat.id by (divmod).
  divmod.
Qed.

(** With enough fuel the loop runs through all groups and stops there. *)
Lemma decode_loop_eq v s (N : nat) fuel : forall k : nat,
  (k <= group_count s)%nat -> (group_count s <= fuel + k)%nat ->
  decode_loop fuel (createLookup v) s (Z.of_nat N) (dec_at (createLookup v) s N k) =
  dec_at (createLookup v) s N (group_count s).
Proof.
  induction fuel as [| fuel IH]; intros k Hk Hfuel.
  - replace k with (group_count s) by lia. reflexivity.
  - cbn [decode_loop]. unfold dec_at at 1. cbn [dec_i].
    case_bool_decide as Hlt.
    + fold (dec_at (createLookup v) s N k). rewrite decode_body_eq.
      apply group_count_lt in Hlt. apply IH; lia.
    + rewrite group_count_lt in Hlt.
      replace k with (group_count s) by lia. reflexivity.
Qed.

(** [decode] after sanitization, in terms of [decoded]. *)
Lemma decode_eq s o :
  let v := opt_variant o in
  let p := opt_padding o in
  let t := sanitize v s in
  decode s o =
  if p && negb (Z.rem (Z.of_nat (length t)) 4 =? 0) then JS.Throw InvalidLength
  else if bool_decide (outputLen p t < 0) then JS.Throw InvalidArrayLength
  else JS.Return
         (dec_view (Z.to_nat (outputLen p t))
            (decoded (createLookup v) t (group_count t))).2.
Proof.
  intros v p t. unfold decode. fold v p t.
  destruct (p && negb (Z.rem (Z.of_nat (length t)) 4 =? 0)); [reflexivity |].
  fold (paddingChars p t). fold (outputLen p t).
  case_bool_decide as Hneg; [reflexivity |].
  f_equal.
  pose proof (decode_loop_eq v t (Z.to_nat (outputLen p t)) (length t) 0
                ltac:(lia) ltac:(pose proof (group_count_le t); lia)) as E.
  rewrite Z2Nat.id in E by lia.
  unfold dec_at at 1 in E. cbn [decoded dec_view length fst snd] in E.
  rewrite take_nil, Nat.sub_0_r in E. cbn [app] in E.
  change (4 * Z.of_nat 0) with 0 in E.
  change (Z.of_nat (0 `min` Z.to_nat (outputLen p t))) with 0 in E.
  rewrite E. reflexivity.
Qed.

(** ** Outcome of [decode] *)

Lemma sar_2 x : 0 <= x < 2 ^ 31 -> JS.sar x 2 = x / 4.
Proof.
  intros Hx. unfold JS.sar. rewrite ToInt32_small by lia.
  change (2 mod 32) with 2. rewrite Z.shiftr_div_pow2 by lia. reflexivity.
Qed.

Lemma endsWith_true (s t : list ascii) :
  JS.endsWith s t = true -> t `suffix_of` s.
Proof. unfold JS.endsWith. apply bool_decide_eq_true_1. Qed.

Lemma paddingChars_range p t :
  0 <= paddingChars p t <= 2 /\
  (0 < paddingChars p t -> 0 < Z.of_nat (length t)).
Proof.
  unfold paddingChars. destruct p; [| lia].
  destruct (JS.endsWith t (str "==")) eqn:E2.
  - apply endsWith_true, suffix_length in E2. simpl in E2. lia.
  - destruct (JS.endsWith t (str "=")) eqn:E1; [| lia].
    apply endsWith_true, suffix_length in E1. simpl in E1. lia.
Qed.

Lemma outputLen_nonneg p t :
  3 * Z.of_nat (length t) < 2 ^ 31 ->
  (p = true -> Z.of_nat (length t) mod 4 = 0) ->
  0 <= outputLen p t.
Proof.
  intros Hsize Hmod. unfold outputLen. rewrite sar_2 by lia.
  destruct (paddingChars_range p t) as [Hr Hpos].
  destruct p.
  - specialize (Hmod eq_refl). divmod.
  - unfold paddingChars in *. divmod.
Qed.

Lemma dec_view_length N D : length (dec_view N D).2 = N.
Proof.
  unfold dec_view. cbn [snd].
  rewrite length_app, length_take, length_replicate. lia.
Qed.

Lemma length_check p (n : Z) :
  0 <= n ->
  p && negb (Z.rem n 4 =? 0) = true <-> p = true /\ n mod 4 <> 0.
Proof.
  intros Hn. rewrite Z.rem_mod_nonneg by lia.
  rewrite andb_true_iff, negb_true_iff, Z.eqb_neq. reflexivity.
Qed.

(** X3: [decode] throws the length error exactly when padding is required and
    the text left by the regular expression has a length that is not a
    multiple of 4; otherwise it returns [outputLen] bytes (for a text short
    enough for [(len * 3) >> 2] to stay inside 32 bits). *)
Lemma decode_outcome s o :
  3 * Z.of_nat (length (sanitize (opt_variant o) s)) < 2 ^ 31 ->
  (opt_padding o = true /\
   Z.of_nat (length (sanitize (opt_variant o) s)) mod 4 <> 0 ->
   decode s o = JS.Throw InvalidLength) /\
  (~ (opt_padding o = true /\
      Z.of_nat (length (sanitize (opt_variant o) s)) mod 4 <> 0) ->
   exists bytes,
     decode s o = JS.Return bytes /\
     Z.of_nat (length bytes) =
       outputLen (opt_padding o) (sanitize (opt_variant o) s)).
Proof.
  intros Hsize. rewrite decode_eq. cbv zeta.
  set (t := sanitize (opt_variant o) s) in *.
  pose proof (length_check (opt_padding o) (Z.of_nat (length t)) ltac:(lia)) as Hc.
  split; intros H.
  - apply Hc in H. rewrite H. reflexivity.
  - rewrite <- Hc in H. apply not_true_is_false in H. rewrite H.
    assert (0 <= outputLen (opt_padding o) t) as Hout.
    { apply outputLen_nonneg; [exact Hsize |].
      intros Hp. destruct (decide (Z.of_nat (length t) mod 4 = 0)) as [| Hne];
        [assumption |].
      exfalso. rewrite (proj2 Hc (conj Hp Hne)) in H. discriminate. }
    rewrite bool_decide_eq_false_2 by lia.
    eexists. split; [reflexivity |].
    rewrite dec_view_length. lia.
Qed.

(** ** What the regular expression leaves of an encoded text *)

Section Sanitized.

Variable chars : jsstring.
Hypothesis chars_length : length chars = 64%nat.
Variable P : ascii -> Prop.
Context `{forall c, Decision (P c)}.
Hypothesis P_chars : forall c, c ∈ chars -> P c.
Hypothesis P_CR : ~ P CR.
Hypothesis P_LF : ~ P LF.

Lemma filter_quad n : filter P (quad chars n) = quad chars n.
Proof.
  apply filter_all. eapply Forall_impl; [apply quad_in, chars_length |].
  exact P_chars.
Qed.

Lemma filter_CRLF : filter P CRLF = [].
Proof.
  apply filter_none.
  apply Forall_cons; split; [exact P_CR |].
  apply Forall_cons; split; [exact P_LF | constructor].
Qed.

Lemma filter_wrap_text L : filter P (wrap_text L) = [].
Proof.
  unfold wrap_text. destruct (bool_decide (L > 0)); [apply filter_CRLF | reflexivity].
Qed.

Lemma filter_full_groups L bs : forall lcc lcc',
  filter P (full_groups chars L bs lcc).1 = (full_groups chars 0 bs lcc').1.
Proof.
  induction bs as [| a | a b | a b c l IH] using list_ind3; intros lcc lcc';
    try reflexivity.
  rewrite (full_groups_nowrap chars 0) by lia. cbn [full_groups fst].
  destruct (bool_decide (L > 0)); [destruct (bool_decide (lcc + 4 >= L)) |];
    cbn [fst]; rewrite !filter_app, ?filter_CRLF, filter_quad; cbn [app];
    f_equal; apply IH.
Qed.

Lemma filter_symbols2 k1 k2 :
  filter P [symbol chars (sextet k1 18); symbol chars (sextet k2 12)] =
  [symbol chars (sextet k1 18); symbol chars (sextet k2 12)].
Proof.
  apply filter_all.
  repeat (apply Forall_cons; split;
          [apply P_chars, symbol_in; auto using sextet_range |]).
  constructor.
Qed.

Lemma filter_symbols3 k1 k2 k3 :
  filter P [symbol chars (sextet k1 18); symbol chars (sextet k2 12);
            symbol chars (sextet k3 6)] =
  [symbol chars (sextet k1 18); symbol chars (sextet k2 12);
   symbol chars (sextet k3 6)].
Proof.
  apply filter_all.
  repeat (apply Forall_cons; split;
          [apply P_chars, symbol_in; auto using sextet_range |]).
  constructor.
Qed.

Lemma filter_pad_text_keep padding k :
  P PAD -> filter P (pad_text padding k) = pad_text padding k.
Proof.
  intros HP. apply filter_all.
  eapply Forall_impl; [apply pad_text_chars |]. intros c ->. exact HP.
Qed.

Lemma filter_pad_text_drop padding k :
  ~ P PAD -> filter P (pad_text padding k) = [].
Proof.
  intros HP. apply filter_none.
  eapply Forall_impl; [apply pad_text_chars |]. intros c ->. exact HP.
Qed.

Lemma wrap_text_0 : wrap_text 0 = [].
Proof. reflexivity. Qed.

Lemma filter_tail_text_keep padding L bs :
  P PAD -> filter P (tail_text chars padding L bs) = tail_text chars padding 0 bs.
Proof.
  intros HP.
  destruct bs as [| b0 [| b1 [| b2 rest]]]; try reflexivity; unfold tail_text;
    rewrite !filter_app, filter_wrap_text, filter_pad_text_keep by assumption;
    rewrite ?filter_symbols2, ?filter_symbols3, wrap_text_0; reflexivity.
Qed.

Lemma filter_tail_text_drop padding L bs :
  ~ P PAD -> filter P (tail_text chars padding L bs) = tail_text chars false 0 bs.
Proof.
  intros HP.
  destruct bs as [| b0 [| b1 [| b2 rest]]]; try reflexivity; unfold tail_text;
    rewrite !filter_app, filter_wrap_text, filter_pad_text_drop by assumption;
    rewrite ?filter_symbols2, ?filter_symbols3, wrap_text_0; reflexivity.
Qed.

End Sanitized.

(** The decoder's regular expression turns any encoded text into the
    unwrapped text; under [UrlSafe] it also takes the padding away. *)
Lemma sanitize_encode bytes o :
  sanitize (opt_variant o) (encode bytes o) =
  encode_text (getChars (opt_variant o))
    (kept_padding (opt_variant o) (opt_padding o)) 0 bytes.
Proof.
  rewrite encode_eq. unfold encode_text, sanitize. rewrite filter_app.
  assert (Hchars : forall c, c ∈ getChars (opt_variant o) ->
                             Is_true (regex_class (opt_variant o) c)).
  { intros c Hc. destruct (opt_variant o).
    - rewrite regex_class_standard. apply bool_decide_pack. left. exact Hc.
    - rewrite regex_class_urlsafe. apply bool_decide_pack. exact Hc. }
  assert (HCR : ~ Is_true (regex_class (opt_variant o) CR))
    by (destruct (opt_variant o); vm_compute; exact id).
  assert (HLF : ~ Is_true (regex_class (opt_variant o) LF))
    by (destruct (opt_variant o); vm_compute; exact id).
  rewrite (filter_full_groups _ (getChars_length _) _ Hchars HCR HLF _ _ 0 0).
  f_equal.
  destruct (opt_variant o) eqn:Ev; cbn [kept_padding].
  - apply (filter_tail_text_keep _ (getChars_length _) _ Hchars HCR HLF).
    vm_compute. exact I.
  - apply (filter_tail_text_drop _ (getChars_length _) _ Hchars HCR HLF).
    vm_compute. exact id.
Qed.

(** ** Decoding an encoded text *)

Lemma sextets_recombine n :
  0 <= n < 2 ^ 24 ->
  sextet n 18 * 2 ^ 18 + sextet n 12 * 2 ^ 12 + sextet n 6 * 2 ^ 6 + sextet n 0 = n.
Proof.
  intros Hn. unfold sextet.
  change (2 ^ 18) with 262144. change (2 ^ 12) with 4096.
  change (2 ^ 6) with 64. change (2 ^ 0) with 1. change (2 ^ 24) with 16777216 in Hn.
  divmod.
Qed.

Lemma word_bytes_pack b0 b1 b2 :
  word_bytes (pack (byte_val b0) (byte_val b1) (byte_val b2)) = [b0; b1; b2].
Proof.
  pose proof (byte_val_range b0). pose proof (byte_val_range b1).
  pose proof (byte_val_range b2).
  unfold word_bytes, pack.
  change (2 ^ 16) with 65536. change (2 ^ 8) with 256.
  replace ((byte_val b0 * 65536 + byte_val b1 * 256 + byte_val b2) / 65536 mod 256)
    with (byte_val b0) by (divmod).
  replace ((byte_val b0 * 65536 + byte_val b1 * 256 + byte_val b2) / 256 mod 256)
    with (byte_val b1) by (divmod).
  replace ((byte_val b0 * 65536 + byte_val b1 * 256 + byte_val b2) mod 256)
    with (byte_val b2) by (divmod).
  rewrite !ToUint8_byte_val. reflexivity.
Qed.

Lemma char_at_app_r (q s : list ascii) (i : Z) :
  0 <= i -> JS.char_at (q ++ s) (Z.of_nat (length q) + i) = JS.char_at s i.
Proof.
  intros Hi. unfold JS.char_at. rewrite !bool_decide_eq_true_2 by lia.
  rewrite lookup_app_r by lia. f_equal. lia.
Qed.

Section Decoded.

Variable v : Base64Variant.

Lemma digit_symbol s i k :
  JS.char_at s i = Some (symbol (getChars v) k) -> 0 <= k < 64 ->
  digit (createLookup v) s i = k.
Proof.
  intros Hc Hk. unfold digit. rewrite Hc. cbn [JS.to_key].
  pose proof (char_at_symbol _ (getChars_length v) k Hk) as Hs.
  unfold JS.char_at in Hs. rewrite bool_decide_eq_true_2 in Hs by lia.
  rewrite (createLookup_hit v _ _ Hs). simpl. lia.
Qed.

Lemma digit_pad s i :
  JS.char_at s i = Some PAD -> digit (createLookup v) s i = 0.
Proof.
  intros Hc. unfold digit. rewrite Hc. cbn [JS.to_key].
  rewrite createLookup_miss; [reflexivity |].
  intros c Hin [= <-]. exact (getChars_no_PAD v Hin).
Qed.

Lemma digit_undefined s i :
  JS.char_at s i = None -> digit (createLookup v) s i = 0.
Proof.
  intros Hc. unfold digit. rewrite Hc.
  rewrite createLookup_miss; [reflexivity |].
  intros c _. discriminate.
Qed.

Lemma word_quad n s :
  0 <= n < 2 ^ 24 -> word (createLookup v) (quad (getChars v) n ++ s) 0 = n.
Proof.
  intros Hn. unfold word.
  rewrite (digit_symbol _ 0 (sextet n 18)), (digit_symbol _ (0 + 1) (sextet n 12)),
          (digit_symbol _ (0 + 2) (sextet n 6)), (digit_symbol _ (0 + 3) (sextet n 0));
    try apply sextet_range; try reflexivity.
  apply sextets_recombine, Hn.
Qed.

Lemma digit_shift (q s : list ascii) i :
  length q = 4%nat -> 0 <= i ->
  digit (createLookup v) (q ++ s) (4 + i) = digit (createLookup v) s i.
Proof.
  intros Hq Hi. unfold digit.
  replace (4 + i) with (Z.of_nat (length q) + i) by lia.
  rewrite char_at_app_r by lia. reflexivity.
Qed.

Lemma word_shift (q s : list ascii) i :
  length q = 4%nat -> 0 <= i ->
  word (createLookup v) (q ++ s) (4 + i) = word (createLookup v) s i.
Proof.
  intros Hq Hi. unfold word.
  replace (4 + i + 1) with (4 + (i + 1)) by lia.
  replace (4 + i + 2) with (4 + (i + 2)) by lia.
  replace (4 + i + 3) with (4 + (i + 3)) by lia.
  rewrite !digit_shift by (assumption || lia). reflexivity.
Qed.

Lemma decoded_shift (q s : list ascii) (k : nat) :
  length q = 4%nat ->
  decoded (createLookup v) (q ++ s) (S k) =
  word_bytes (word (createLookup v) (q ++ s) 0) ++ decoded (createLookup v) s k.
Proof.
  intros Hq. induction k as [| k IH].
  - cbn [decoded app]. rewrite app_nil_r. reflexivity.
  - cbn [decoded] in *. rewrite IH, <- app_assoc. do 3 f_equal.
    replace (4 * Z.of_nat (S k)) with (4 + 4 * Z.of_nat k) by lia.
    apply word_shift; [exact Hq | lia].
Qed.

(** The word of a tail of one or two bytes, padded or cut short. *)
Lemma word_tail1 padding b0 :
  word (createLookup v) (tail_text (getChars v) padding 0 [b0]) 0 =
  pack (byte_val b0) 0 0.
Proof.
  pose proof (byte_val_range b0) as R0.
  set (n := pack (byte_val b0) 0 0).
  assert (Hn : 0 <= n < 2 ^ 24) by (apply pack_range; lia).
  pose proof (sextets_recombine n Hn) as Hrec.
  assert (sextet n 6 = 0) as H6
    by (unfold sextet, n, pack; change (2 ^ 6) with 64; divmod).
  assert (sextet n 0 = 0) as H0
    by (unfold sextet, n, pack; change (2 ^ 0) with 1; divmod).
  rewrite H6, H0 in Hrec. etransitivity; [| exact Hrec].
  unfold word, tail_text. fold n. rewrite wrap_text_0.
  rewrite (digit_symbol _ 0 (sextet n 18)), (digit_symbol _ (0 + 1) (sextet n 12));
    try apply sextet_range; try reflexivity.
  destruct padding.
  - rewrite !digit_pad by reflexivity. lia.
  - rewrite !digit_undefined by reflexivity. lia.
Qed.

Lemma word_tail2 padding b0 b1 :
  word (createLookup v) (tail_text (getChars v) padding 0 [b0; b1]) 0 =
  pack (byte_val b0) (byte_val b1) 0.
Proof.
  pose proof (byte_val_range b0) as R0. pose proof (byte_val_range b1) as R1.
  set (n := pack (byte_val b0) (byte_val b1) 0).
  assert (Hn : 0 <= n < 2 ^ 24) by (apply pack_range; lia).
  pose proof (sextets_recombine n Hn) as Hrec.
  assert (sextet n 0 = 0) as H0
    by (unfold sextet, n, pack; change (2 ^ 0) with 1; divmod).
  rewrite H0 in Hrec. etransitivity; [| exact Hrec].
  unfold word, tail_text. fold n. rewrite wrap_text_0.
  rewrite (digit_symbol _ 0 (sextet n 18)), (digit_symbol _ (0 + 1) (sextet n 12)),
          (digit_symbol _ (0 + 2) (sextet n 6));
    try apply sextet_range; try reflexivity.
  destruct padding.
  - rewrite !digit_pad by reflexivity. lia.
  - rewrite !digit_undefined by reflexivity. lia.
Qed.

End Decoded.

Lemma encode_text_step chars p a b c l :
  encode_text chars p 0 (a :: b :: c :: l) =
  quad chars (pack (byte_val a) (byte_val b) (byte_val c)) ++ encode_text chars p 0 l.
Proof.
  unfold encode_text. rewrite full_groups_nowrap by lia.
  cbn [fst leftover]. rewrite <- app_assoc. reflexivity.
Qed.

Lemma group_count_app4 (q s : list ascii) :
  length q = 4%nat -> group_count (q ++ s) = S (group_count s).
Proof.
  intros Hq. unfold group_count, ceil_div. rewrite length_app, Hq.
  rewrite <- Z2Nat.inj_succ by (divmod).
  f_equal. rewrite Nat2Z.inj_add. change (Z.of_nat 4) with 4.
  divmod.
Qed.

(** The groups of an unwrapped encoded text decode to the bytes it was made
    from, followed by the zero bytes of the incomplete last group. *)
Lemma decoded_encode_text v p bs :
  exists junk,
    decoded (createLookup v) (encode_text (getChars v) p 0 bs)
      (group_count (encode_text (getChars v) p 0 bs)) = bs ++ junk.
Proof.
  induction bs as [| a | a b | a b c l [junk IH]] using list_ind3.
  - exists []. reflexivity.
  - exists [Byte.x00; Byte.x00].
    replace (group_count (encode_text (getChars v) p 0 [a])) with 1%nat
      by (destruct p; reflexivity).
    cbn [decoded app]. change (4 * Z.of_nat 0) with 0.
    change (encode_text (getChars v) p 0 [a])
      with (tail_text (getChars v) p 0 [a]).
    rewrite word_tail1.
    change (pack (byte_val a) 0 0)
      with (pack (byte_val a) (byte_val Byte.x00) (byte_val Byte.x00)).
    apply word_bytes_pack.
  - exists [Byte.x00].
    replace (group_count (encode_text (getChars v) p 0 [a; b])) with 1%nat
      by (destruct p; reflexivity).
    cbn [decoded app]. change (4 * Z.of_nat 0) with 0.
    change (encode_text (getChars v) p 0 [a; b])
      with (tail_text (getChars v) p 0 [a; b]).
    rewrite word_tail2.
    change (pack (byte_val a) (byte_val b) 0)
      with (pack (byte_val a) (byte_val b) (byte_val Byte.x00)).
    apply word_bytes_pack.
  - exists junk. rewrite encode_text_step.
    rewrite group_count_app4 by reflexivity.
    rewrite decoded_shift by reflexivity.
    pose proof (byte_val_range a). pose proof (byte_val_range b).
    pose proof (byte_val_range c).
    rewrite word_quad by (apply pack_range; assumption).
    rewrite word_bytes_pack, IH. reflexivity.
Qed.

(** ** The padding count on an encoded text *)

Lemma suffix_elem_of (t s : list ascii) c : t `suffix_of` s -> c ∈ t -> c ∈ s.
Proof. intros [k ->] Hc. apply elem_of_app. right. exact Hc. Qed.

Lemma paddingChars_no_pad p t : PAD ∉ t -> paddingChars p t = 0.
Proof.
  intros Hno. unfold paddingChars. destruct p; [| reflexivity].
  destruct (JS.endsWith t (str "==")) eqn:E2.
  { exfalso. apply Hno. eapply suffix_elem_of; [apply endsWith_true, E2 |].
    simpl. left. }
  destruct (JS.endsWith t (str "=")) eqn:E1; [| reflexivity].
  exfalso. apply Hno. eapply suffix_elem_of; [apply endsWith_true, E1 |].
  simpl. left.
Qed.

Lemma encode_text_no_pad v p bs :
  p = false \/ leftover bs = [] -> PAD ∉ encode_text (getChars v) p 0 bs.
Proof.
  intros Hcase Hin.
  assert (Hall : Forall (fun c => c ∈ getChars v) (encode_text (getChars v) p 0 bs)).
  { unfold encode_text. apply Forall_app. split.
    - apply full_groups_alphabet; [apply getChars_length | lia].
    - destruct Hcase as [-> | ->].
      + apply tail_text_alphabet; [apply getChars_length | lia].
      + constructor. }
  rewrite Forall_forall in Hall. exact (getChars_no_PAD v (Hall _ Hin)).
Qed.

Lemma paddingChars_tail1 v (x : list ascii) b0 :
  paddingChars true (x ++ tail_text (getChars v) true 0 [b0]) = 2.
Proof.
  unfold paddingChars, JS.endsWith.
  rewrite bool_decide_eq_true_2; [reflexivity |].
  eexists (x ++ [_; _]). unfold tail_text. rewrite wrap_text_0.
  rewrite <- !app_assoc. reflexivity.
Qed.

Lemma paddingChars_tail2 v (x : list ascii) b0 b1 :
  paddingChars true (x ++ tail_text (getChars v) true 0 [b0; b1]) = 1.
Proof.
  unfold paddingChars, JS.endsWith, tail_text. rewrite wrap_text_0.
  set (n := pack (byte_val b0) (byte_val b1) 0).
  cbn [pad_text replicate app].
  rewrite bool_decide_eq_false_2.
  - rewrite bool_decide_eq_true_2; [reflexivity |].
    eexists (x ++ [_; _; _]). rewrite <- !app_assoc. reflexivity.
  - intros Hsuf.
    change (x ++ [symbol (getChars v) (sextet n 18); symbol (getChars v) (sextet n 12);
                  symbol (getChars v) (sextet n 6); PAD])
      with (x ++ [symbol (getChars v) (sextet n 18); symbol (getChars v) (sextet n 12)]
              ++ [symbol (getChars v) (sextet n 6)] ++ [PAD]) in Hsuf.
    rewrite !app_assoc in Hsuf.
    change (str "==") with ([PAD] ++ [PAD]) in Hsuf.
    apply suffix_snoc_inv_2 in Hsuf.
    change [PAD] with ([] ++ [PAD]) in Hsuf.
    apply suffix_snoc_inv_1 in Hsuf.
    apply (getChars_no_PAD v). rewrite Hsuf.
    apply symbol_in; [apply getChars_length | apply sextet_range].
Qed.

(** [outputLen] on the text that the regular expression leaves of an encoded
    text is the number of bytes that were encoded, when the text still has
    the padding that [decode] is asked to expect, or needs none. *)
Lemma outputLen_encode_text v p_dec p_text bs :
  p_text = p_dec \/ leftover bs = [] ->
  Z.of_nat (length bs) + 3 < 2 ^ 29 ->
  outputLen p_dec (encode_text (getChars v) p_text 0 bs) = Z.of_nat (length bs).
Proof.
  intros Hcase Hsize. unfold outputLen.
  pose proof (encode_text_length (getChars v) p_text 0 bs ltac:(lia)) as Hlen.
  pose proof (leftover_length bs) as Hleft.
  assert (Hmod : Z.of_nat (length bs) mod 3 = Z.of_nat (length (leftover bs))).
  { rewrite Hleft. rewrite Nat2Z.inj_mod. reflexivity. }
  assert (Hbound : Z.of_nat (length (encode_text (getChars v) p_text 0 bs)) * 3 < 2 ^ 31).
  { rewrite Hlen. unfold tail_length. repeat case_bool_decide; destruct p_text;
      divmod. }
  rewrite sar_2 by lia.
  destruct (decide (p_text = false \/ leftover bs = [])) as [Hno | Hpad].
  - rewrite paddingChars_no_pad by (apply encode_text_no_pad, Hno).
    rewrite Hlen. unfold tail_length.
    destruct Hno as [-> | Hnil].
    + repeat case_bool_decide; divmod.
    + rewrite Hnil in Hmod. simpl in Hmod.
      rewrite bool_decide_eq_true_2 by lia. divmod.
  - assert (p_text = true) as -> by (destruct p_text; tauto).
    assert (p_dec = true) as -> by (destruct Hcase as [<- | ?]; tauto).
    assert (leftover bs <> []) as Hne by tauto.
    destruct (leftover_split bs) as [pre [Hsplit Hlt]].
    rewrite Hlen. unfold encode_text, tail_length.
    destruct (leftover bs) as [| b0 [| b1 [| b2 rest]]] eqn:El;
      [congruence | | | simpl in Hlt; lia].
    + rewrite paddingChars_tail1. simpl in Hmod.
      rewrite bool_decide_eq_false_2 by lia. divmod.
    + rewrite paddingChars_tail2. simpl in Hmod.
      rewrite bool_decide_eq_false_2 by lia. divmod.
Qed.

(** ** Round trip *)

Lemma leftover_nil_iff (bs : list byte) :
  leftover bs = [] <-> (length bs mod 3 = 0)%nat.
Proof.
  rewrite <- leftover_length. split; [intros ->; reflexivity |].
  destruct (leftover bs); [reflexivity | discriminate].
Qed.

(** X1: decoding what was encoded gives the bytes back, for every line length,
    under [Standard], or without padding, or for an input whose length is a
    multiple of 3 (inputs below 2^29 - 3 bytes, so that [(len * 3) >> 2]
    stays inside 32 bits). *)
Theorem decode_encode (bytes : list byte) (o : Base64Options) :
  opt_variant o = Standard \/ opt_padding o = false \/
    (length bytes mod 3 = 0)%nat ->
  Z.of_nat (length bytes) + 3 < 2 ^ 29 ->
  decode (encode bytes o) o = JS.Return bytes.
Proof.
  intros Hcase Hsize. rewrite decode_eq. cbv zeta. rewrite sanitize_encode.
  set (v := opt_variant o) in *. set (p := opt_padding o) in *.
  set (pt := kept_padding v p).
  assert (Hpt : pt = p \/ leftover bytes = []).
  { destruct Hcase as [Hv | [Hp | Hm]].
    - left. unfold pt. rewrite Hv. reflexivity.
    - left. unfold pt. rewrite Hp. destruct v; reflexivity.
    - right. apply leftover_nil_iff, Hm. }
  pose proof (encode_text_length (getChars v) pt 0 bytes ltac:(lia)) as Hlen.
  assert (Hmod : Z.of_nat (length bytes) mod 3 = Z.of_nat (length (leftover bytes))).
  { rewrite leftover_length, Nat2Z.inj_mod. reflexivity. }
  assert (Hcheck : p && negb (Z.rem (Z.of_nat (length (encode_text (getChars v) pt 0 bytes))) 4 =? 0) = false).
  { destruct p; [| reflexivity]. cbn [andb].
    apply negb_false_iff, Z.eqb_eq.
    rewrite Z.rem_mod_nonneg by lia. rewrite Hlen. unfold tail_length.
    destruct Hpt as [-> | Hnil].
    - case_bool_decide; divmod.
    - rewrite Hnil in Hmod. simpl in Hmod.
      rewrite bool_decide_eq_true_2 by lia. divmod. }
  rewrite Hcheck.
  rewrite (outputLen_encode_text v p pt bytes Hpt Hsize).
  rewrite bool_decide_eq_false_2 by lia. rewrite Nat2Z.id.
  destruct (decoded_encode_text v pt bytes) as [junk ->].
  f_equal. unfold dec_view. cbn [snd].
  rewrite take_app_length, length_app.
  replace (length bytes - (length bytes + length junk))%nat with 0%nat by lia.
  apply app_nil_r.
Qed.

Lemma decode_encode_witness :
  decode (encode (ascii_bytes "Many hands") (wrapped Standard true 8))
         (wrapped Standard true 8) = JS.Return (ascii_bytes "Many hands").
Proof.
  apply (decode_encode (ascii_bytes "Many hands") (wrapped Standard true 8)).
  - left. reflexivity.
  - reflexivity.
Defined.

(** X2: under [UrlSafe] with padding, every input whose length is not a
    multiple of 3 is encoded to a text that [decode] refuses. *)
Theorem decode_encode_urlsafe_padded (bytes : list byte) (o : Base64Options) :
  opt_variant o = UrlSafe -> opt_padding o = true ->
  (length bytes mod 3 <> 0)%nat ->
  decode (encode bytes o) o = JS.Throw InvalidLength.
Proof.
  intros Hv Hp Hm. rewrite decode_eq. cbv zeta. rewrite sanitize_encode.
  rewrite Hv, Hp. cbn [kept_padding andb].
  pose proof (encode_text_length URLSAFE_CHARS false 0 bytes ltac:(lia)) as Hlen.
  cbn [getChars].
  assert (Z.of_nat (length bytes) mod 3 <> 0) as Hm'.
  { rewrite <- (Nat2Z.inj_mod _ 3). lia. }
  replace (Z.rem (Z.of_nat (length (encode_text URLSAFE_CHARS false 0 bytes))) 4 =? 0)
    with false; [reflexivity |].
  symmetry. apply Z.eqb_neq. rewrite Z.rem_mod_nonneg by lia.
  rewrite Hlen. unfold tail_length.
  repeat case_bool_decide; divmod.
Qed.

Lemma decode_encode_urlsafe_padded_witness :
  decode (encode (ascii_bytes "Ma") (padded UrlSafe)) (padded UrlSafe) =
  JS.Throw InvalidLength.
Proof.
  apply (decode_encode_urlsafe_padded (ascii_bytes "Ma") (padded UrlSafe));
    [reflexivity | reflexivity | discriminate].
Defined.

(** ** The '=' that the UrlSafe expression deletes *)

(** C1 (the code departs from the claim): for the one-byte input "M" under
    [UrlSafe] with padding, [encode] returns "TQ==" and [decode] of that text
    throws the length error instead of returning the byte. *)
Theorem roundtrip_urlsafe_padded_throws :
  encode (ascii_bytes "M") (padded UrlSafe) = str "TQ==" /\
  decode (encode (ascii_bytes "M") (padded UrlSafe)) (padded UrlSafe) =
    JS.Throw InvalidLength.
Proof. split; vm_compute; reflexivity. Qed.

(** C2 (the code departs from the claim): under [UrlSafe] the sanitization
    step deletes '=' as well, where the claim keeps it; under [Standard] the
    two agree, and the worked example of the claim holds. *)
Theorem sanitize_urlsafe_deletes_pad :
  sanitize UrlSafe (str "TQ==") = str "TQ" /\
  spec_sanitize UrlSafe (str "TQ==") = str "TQ==" /\
  decode (str "TW" ++ CRLF ++ str "Fu") no_options = JS.Return (ascii_bytes "Man").
Proof. repeat split; vm_compute; reflexivity. Qed.

(** C3 (the code departs from the claim): "TQ==" keeps its four characters
    when everything outside the alphabet and '=' is removed, and padding is
    required, yet [decode] under [UrlSafe] throws the length error. *)
Theorem decode_urlsafe_padded_throws :
  Z.of_nat (length (spec_sanitize UrlSafe (str "TQ=="))) mod 4 = 0 /\
  decode (str "TQ==") (padded UrlSafe) = JS.Throw InvalidLength.
Proof. split; vm_compute; reflexivity. Qed.

(** ** Worked examples *)

Example encode_Man : encode (ascii_bytes "Man") no_options = str "TWFu".
Proof. vm_compute. reflexivity. Qed.

Example encode_Ma : encode (ascii_bytes "Ma") no_options = str "TWE=".
Proof. vm_compute. reflexivity. Qed.

Example encode_M : encode (ascii_bytes "M") no_options = str "TQ==".
Proof. vm_compute. reflexivity. Qed.

Example decode_TWFu : decode (str "TWFu") no_options = JS.Return (ascii_bytes "Man").
Proof. vm_compute. reflexivity. Qed.

(** X6: the empty input is encoded to the empty text whatever the options. *)
Lemma encode_empty (o : Base64Options) : encode [] o = [].
Proof. reflexivity. Qed.

(** X7: the empty text is decoded to no bytes whatever the options. *)
Lemma decode_empty (o : Base64Options) : decode [] o = JS.Return [].
Proof.
  unfold decode. cbn [sanitize filter list_filter length].
  change (Z.rem (Z.of_nat 0) 4 =? 0) with true.
  rewrite andb_false_r.
  destruct (opt_padding o); reflexivity.
Qed.

Lemma decode_outcome_witness :
  (opt_padding no_options = true /\
   Z.of_nat (length (sanitize (opt_variant no_options) (str "TWF"))) mod 4 <> 0 ->
   decode (str "TWF") no_options = JS.Throw InvalidLength) /\
  (~ (opt_padding no_options = true /\
      Z.of_nat (length (sanitize (opt_variant no_options) (str "TWF"))) mod 4 <> 0) ->
   exists bytes,
     decode (str "TWF") no_options = JS.Return bytes /\
     Z.of_nat (length bytes) =
       outputLen (opt_padding no_options)
         (sanitize (opt_variant no_options) (str "TWF"))).
Proof.
  apply (decode_outcome (str "TWF") no_options). vm_compute. reflexivity.
Defined.

(** ** Line wrapping only inserts terminators *)

Lemma opt_variant_set_lineLength o L : opt_variant (set_lineLength o L) = opt_variant o.
Proof. reflexivity. Qed.

Lemma opt_padding_set_lineLength o L : opt_padding (set_lineLength o L) = opt_padding o.
Proof. reflexivity. Qed.

Lemma opt_lineLength_set_lineLength o L : opt_lineLength (set_lineLength o L) = L.
Proof. reflexivity. Qed.

Lemma encode_text_unwrap v p L bs :
  filter not_terminator (encode_text (getChars v) p L bs) =
  encode_text (getChars v) p 0 bs.
Proof.
  unfold encode_text. rewrite filter_app.
  assert (Hc : forall c, c ∈ getChars v -> not_terminator c).
  { intros c Hc. split; intros ->;
      [exact (getChars_no_CR v Hc) | exact (getChars_no_LF v Hc)]. }
  assert (HCR : ~ not_terminator CR) by (intros [H _]; exact (H eq_refl)).
  assert (HLF : ~ not_terminator LF) by (intros [_ H]; exact (H eq_refl)).
  rewrite (filter_full_groups _ (getChars_length v) _ Hc HCR HLF _ _ 0 0).
  f_equal.
  apply (filter_tail_text_keep _ (getChars_length v) _ Hc HCR HLF).
  split; discriminate.
Qed.

(** X8: deleting the CR and LF characters from the output of [encode] gives
    the output of [encode] without line wrapping, whatever the line length. *)
Theorem encode_unwrap (bytes : list byte) (o : Base64Options) :
  filter not_terminator (encode bytes o) = encode bytes (set_lineLength o 0).
Proof.
  rewrite !encode_eq.
  rewrite opt_variant_set_lineLength, opt_padding_set_lineLength,
          opt_lineLength_set_lineLength.
  apply encode_text_unwrap.
Qed.

Lemma full_groups_nonpos chars L bs : forall lcc lcc',
  L <= 0 -> (full_groups chars L bs lcc).1 = (full_groups chars 0 bs lcc').1.
Proof.
  induction bs as [| a | a b | a b c l IH] using list_ind3; intros lcc lcc' HL;
    try reflexivity.
  rewrite !full_groups_nowrap by lia. cbn [fst]. f_equal. apply IH, HL.
Qed.

Lemma encode_text_nonpos chars p L bs :
  L <= 0 -> encode_text chars p L bs = encode_text chars p 0 bs.
Proof.
  intros HL. unfold encode_text.
  rewrite (full_groups_nonpos chars L bs 0 0 HL). f_equal.
  destruct (leftover bs) as [| b0 [| b1 [| b2 rest]]]; try reflexivity;
    unfold tail_text, wrap_text; rewrite bool_decide_eq_false_2 by lia;
    reflexivity.
Qed.

(** X9: a line length that is zero or negative switches line wrapping off. *)
Theorem encode_nonpositive_lineLength (bytes : list byte) (o : Base64Options) :
  opt_lineLength o <= 0 -> encode bytes o = encode bytes (set_lineLength o 0).
Proof.
  intros HL. rewrite !encode_eq.
  rewrite opt_variant_set_lineLength, opt_padding_set_lineLength,
          opt_lineLength_set_lineLength.
  apply encode_text_nonpos, HL.
Qed.

Lemma encode_nonpositive_lineLength_witness :
  encode (ascii_bytes "Many hands") (wrapped UrlSafe true (-8)) =
  encode (ascii_bytes "Many hands") (set_lineLength (wrapped UrlSafe true (-8)) 0).
Proof.
  apply (encode_nonpositive_lineLength (ascii_bytes "Many hands")
           (wrapped UrlSafe true (-8))).
  vm_compute. discriminate.
Defined.

(** ** Length of the wrapped output *)

Lemma line_width_facts L :
  0 < L -> 0 < line_width L /\ line_width L mod 4 = 0 /\
           L <= line_width L < L + 4.
Proof. intros HL. unfold line_width, ceil_div. divmod. Qed.

Lemma wrap_test_width L lcc :
  0 < L -> 0 <= lcc < line_width L -> lcc mod 4 = 0 ->
  (lcc + 4 >= L <-> lcc + 4 = line_width L).
Proof. intros HL Hl Hm. unfold line_width, ceil_div in *. divmod. Qed.

(** Length of the text of the main loop and its final line count, for a
    loop that starts with [lcc] symbols on the line. *)
Lemma full_groups_count chars L bs : 0 < L -> forall lcc,
  0 <= lcc < line_width L -> lcc mod 4 = 0 ->
  Z.of_nat (length (full_groups chars L bs lcc).1) =
    4 * (Z.of_nat (length bs) / 3) +
    2 * ((lcc + 4 * (Z.of_nat (length bs) / 3)) / line_width L) /\
  (full_groups chars L bs lcc).2 =
    (lcc + 4 * (Z.of_nat (length bs) / 3)) mod line_width L.
Proof.
  intros HL. pose proof (line_width_facts L HL) as (HW & HW4 & HWL).
  induction bs as [| a | a b | a b c l IH] using list_ind3; intros lcc Hlcc Hmod;
    try (cbn [full_groups fst snd length];
         change (Z.of_nat 0 / 3) with 0; change (Z.of_nat 1 / 3) with 0;
         change (Z.of_nat 2 / 3) with 0;
         rewrite Z.mul_0_r, Z.add_0_r, Z.div_small, Z.mod_small by lia;
         split; reflexivity).
  assert (Hg : Z.of_nat (length (a :: b :: c :: l)) / 3 = Z.of_nat (length l) / 3 + 1).
  { cbn [length]. divmod. }
  rewrite Hg. set (g := Z.of_nat (length l) / 3) in *.
  cbn [full_groups]. rewrite (bool_decide_eq_true_2 (L > 0)) by lia.
  pose proof (wrap_test_width L lcc HL Hlcc Hmod) as Hwrap.
  case_bool_decide as Hge; cbn [fst snd].
  - apply Hwrap in Hge.
    destruct (IH 0 ltac:(lia) eq_refl) as [IHl IHc].
    rewrite Z.add_0_l in IHl, IHc.
    replace (lcc + 4 * (g + 1)) with (4 * g + 1 * line_width L) by lia.
    rewrite Z.div_add, Z.mod_add by lia.
    rewrite !length_app, !Nat2Z.inj_add, IHl, IHc.
    cbn [length quad CRLF]. split; [lia | reflexivity].
  - assert (lcc + 4 < line_width L) by lia.
    destruct (IH (lcc + 4)) as [IHl IHc].
    + lia.
    + rewrite <- Hmod. change 4 with (1 * 4) at 1. apply Z.mod_add. lia.
    + replace (lcc + 4 * (g + 1)) with (lcc + 4 + 4 * g) by lia.
      rewrite !length_app, !Nat2Z.inj_add, IHl, IHc.
      cbn [length quad]. split; [lia | reflexivity].
Qed.

Lemma tail_text_length chars p L bs :
  Z.of_nat (length (tail_text chars p L (leftover bs))) =
  tail_length p (Z.of_nat (length bs) mod 3) +
  (if bool_decide (Z.of_nat (length bs) mod 3 = 0) then 0
   else Z.of_nat (length (wrap_text L))).
Proof.
  assert (Hmod : Z.of_nat (length bs) mod 3 = Z.of_nat (length (leftover bs))).
  { rewrite leftover_length, Nat2Z.inj_mod. reflexivity. }
  rewrite Hmod. pose proof (leftover_split bs) as [_ [_ Hlt]].
  unfold tail_length.
  destruct (leftover bs) as [| b0 [| b1 [| b2 rest]]];
    [reflexivity | | | simpl in Hlt; lia];
    unfold tail_text; rewrite !length_app, !Nat2Z.inj_add;
    cbn [length]; rewrite !bool_decide_eq_false_2 by lia;
    try rewrite bool_decide_eq_true_2 by lia;
    destruct p; cbn [pad_text replicate length]; lia.
Qed.

(** X10: with a line length [L > 0] the output is longer than the unwrapped
    output by two characters for each terminator: one after every
    [4 * ceil(L / 4)] symbols of the complete groups, and one after the tail
    when the input length is not a multiple of 3. *)
Theorem encode_wrapped_length (bytes : list byte) (o : Base64Options) :
  0 < opt_lineLength o ->
  Z.of_nat (length (encode bytes o)) =
  Z.of_nat (length (encode bytes (set_lineLength o 0))) +
  2 * terminator_count (opt_lineLength o) (Z.of_nat (length bytes)).
Proof.
  intros HL. rewrite !encode_eq.
  rewrite opt_variant_set_lineLength, opt_padding_set_lineLength,
          opt_lineLength_set_lineLength.
  rewrite (encode_text_length _ _ 0) by lia.
  unfold encode_text. rewrite length_app, Nat2Z.inj_add.
  pose proof (line_width_facts _ HL) as (HW & _ & _).
  destruct (full_groups_count (getChars (opt_variant o)) (opt_lineLength o) bytes
              HL 0 ltac:(lia) eq_refl) as [Hlen _].
  rewrite Hlen, tail_text_length, Z.add_0_l.
  unfold terminator_count, wrap_text.
  rewrite (bool_decide_eq_true_2 (opt_lineLength o > 0)) by lia.
  case_bool_decide; cbn [length CRLF]; lia.
Qed.

Lemma encode_wrapped_length_witness :
  Z.of_nat (length (encode (ascii_bytes "ManManM") (wrapped Standard true 5))) =
  Z.of_nat (length (encode (ascii_bytes "ManManM")
                      (set_lineLength (wrapped Standard true 5) 0))) +
  2 * terminator_count 5 (Z.of_nat (length (ascii_bytes "ManManM"))).
Proof.
  apply (encode_wrapped_length (ascii_bytes "ManManM") (wrapped Standard true 5)).
  reflexivity.
Defined.

(** ** Injectivity *)

Lemma encode_text_strip v p L bs :
  filter (fun c => c ∈ getChars v) (encode_text (getChars v) p L bs) =
  encode_text (getChars v) false 0 bs.
Proof.
  unfold encode_text. rewrite filter_app.
  rewrite (filter_full_groups _ (getChars_length v) _ (fun c H => H)
             (getChars_no_CR v) (getChars_no_LF v) _ _ 0 0).
  f_equal.
  apply (filter_tail_text_drop _ (getChars_length v) _ (fun c H => H)
           (getChars_no_CR v) (getChars_no_LF v)).
  apply getChars_no_PAD.
Qed.

Lemma unpadded_length_inj (n1 n2 : Z) :
  0 <= n1 -> 0 <= n2 ->
  4 * (n1 / 3) + tail_length false (n1 mod 3) =
  4 * (n2 / 3) + tail_length false (n2 mod 3) ->
  n1 = n2.
Proof.
  intros H1 H2. unfold tail_length. repeat case_bool_decide; divmod.
Qed.

(** X11: [encode] is injective: under any one options value two different
    byte sequences are never encoded to the same text. *)
Theorem encode_injective (b1 b2 : list byte) (o : Base64Options) :
  encode b1 o = encode b2 o -> b1 = b2.
Proof.
  intros H.
  apply (f_equal (filter (fun c => c ∈ getChars (opt_variant o)))) in H.
  rewrite !encode_eq, !encode_text_strip in H.
  set (v := opt_variant o) in *.
  assert (Hlen : length b1 = length b2).
  { pose proof (encode_text_length (getChars v) false 0 b1 ltac:(lia)) as L1.
    pose proof (encode_text_length (getChars v) false 0 b2 ltac:(lia)) as L2.
    rewrite H in L1. rewrite L1 in L2.
    apply Nat2Z.inj. apply unpadded_length_inj; [lia | lia | exact L2]. }
  destruct (decoded_encode_text v false b1) as [j1 E1].
  destruct (decoded_encode_text v false b2) as [j2 E2].
  rewrite H, E2 in E1.
  destruct (app_inj_1 b1 b2 j1 j2 Hlen (eq_sym E1)) as [Hb _]. exact Hb.
Qed.

Lemma encode_injective_witness :
  ascii_bytes "Man" = ascii_bytes "Man".
Proof.
  exact (encode_injective (ascii_bytes "Man") (ascii_bytes "Man") no_options eq_refl).
Defined.

(** ** Encoding in chunks *)

Lemma length_mod3_cons {A} (a b c : A) (l : list A) :
  (length (a :: b :: c :: l) mod 3 = length l mod 3)%nat.
Proof.
  cbn [length].
  replace (S (S (S (length l)))) with (length l + 1 * 3)%nat by lia.
  apply Nat.Div0.mod_add.
Qed.

Lemma full_groups_app chars L b1 b2 :
  (length b1 mod 3 = 0)%nat -> forall lcc,
  full_groups chars L (b1 ++ b2) lcc =
  ((full_groups chars L b1 lcc).1 ++
     (full_groups chars L b2 (full_groups chars L b1 lcc).2).1,
   (full_groups chars L b2 (full_groups chars L b1 lcc).2).2).
Proof.
  induction b1 as [| a | a b | a b c l IH] using list_ind3; intros Hm lcc;
    try discriminate Hm.
  - cbn [app full_groups fst snd]. apply surjective_pairing.
  - assert (Hl : (length l mod 3 = 0)%nat)
      by (rewrite <- (length_mod3_cons a b c); exact Hm).
    cbn [app full_groups].
    destruct (bool_decide (L > 0)); [destruct (bool_decide (lcc + 4 >= L)) |];
      rewrite (IH Hl); cbn [fst snd]; rewrite <- ?app_assoc; reflexivity.
Qed.

Lemma leftover_app b1 b2 :
  (length b1 mod 3 = 0)%nat -> leftover (b1 ++ b2) = leftover b2.
Proof.
  induction b1 as [| a | a b | a b c l IH] using list_ind3; intros Hm;
    try discriminate Hm; [reflexivity |].
  cbn [app leftover]. apply IH.
  rewrite <- (length_mod3_cons a b c). exact Hm.
Qed.

(** X12: an input may be encoded in chunks: when the first chunk is a whole
    number of 3-byte groups and, if lines are wrapped, fills whole lines, the
    encoding of the concatenation is the concatenation of the encodings. *)
Theorem encode_app (b1 b2 : list byte) (o : Base64Options) :
  (length b1 mod 3 = 0)%nat ->
  opt_lineLength o <= 0 \/
    (4 * (Z.of_nat (length b1) / 3)) mod line_width (opt_lineLength o) = 0 ->
  encode (b1 ++ b2) o = encode b1 o ++ encode b2 o.
Proof.
  intros Hm HL. rewrite !encode_eq. unfold encode_text.
  set (chars := getChars (opt_variant o)). set (L := opt_lineLength o) in *.
  rewrite full_groups_app, leftover_app by assumption. cbn [fst].
  rewrite (proj2 (leftover_nil_iff b1) Hm). cbn [tail_text].
  rewrite app_nil_r, <- app_assoc. do 2 f_equal.
  destruct HL as [HL | HL].
  - rewrite (full_groups_nonpos chars L b2 _ 0 HL).
    rewrite (full_groups_nonpos chars L b2 0 0 HL). reflexivity.
  - destruct (Z_le_gt_dec L 0) as [Hle | Hgt].
    + rewrite (full_groups_nonpos chars L b2 _ 0 Hle).
      rewrite (full_groups_nonpos chars L b2 0 0 Hle). reflexivity.
    + pose proof (line_width_facts L ltac:(lia)) as (HW & _ & _).
      destruct (full_groups_count chars L b1 ltac:(lia) 0 ltac:(lia) eq_refl)
        as [_ Hc].
      rewrite Z.add_0_l, HL in Hc. rewrite Hc. reflexivity.
Qed.

Lemma encode_app_witness :
  encode (ascii_bytes "ManMan" ++ ascii_bytes "Ma") (wrapped Standard true 8) =
  encode (ascii_bytes "ManMan") (wrapped Standard true 8) ++
  encode (ascii_bytes "Ma") (wrapped Standard true 8).
Proof.
  apply (encode_app (ascii_bytes "ManMan") (ascii_bytes "Ma")
           (wrapped Standard true 8)).
  - reflexivity.
  - right. reflexivity.
Defined.

(** ** The padding characters *)

(** X13: the output of [encode] holds exactly [(3 - n mod 3) mod 3]
    characters '=' for an input of [n] bytes when padding is enabled, and
    none when it is disabled, whatever the variant and the line length. *)
Theorem encode_pad_count (bytes : list byte) (o : Base64Options) :
  length (filter (fun c => c = PAD) (encode bytes o)) =
  if opt_padding o then ((3 - length bytes mod 3) mod 3)%nat else 0%nat.
Proof.
  rewrite encode_eq. unfold encode_text. rewrite filter_app, length_app.
  rewrite (filter_none (fun c => c = PAD)).
  2:{ eapply Forall_impl;
        [apply full_groups_chars, getChars_length |].
      intros c [Hc | [-> | ->]]; [| discriminate | discriminate].
      intros ->. exact (getChars_no_PAD _ Hc). }
  cbn [length Nat.add].
  rewrite <- (leftover_length bytes).
  pose proof (leftover_split bytes) as [_ [_ Hlt]].
  assert (Hs : forall k, filter (fun c => c = PAD)
                 [symbol (getChars (opt_variant o)) k] = []
               \/ ~ 0 <= k < 64).
  { intros k. destruct (decide (0 <= k < 64)) as [Hk | Hk]; [left | right; exact Hk].
    apply filter_none. apply Forall_cons; split; [| constructor].
    intros Heq. apply (getChars_no_PAD (opt_variant o)). rewrite <- Heq.
    apply symbol_in; [apply getChars_length | exact Hk]. }
  assert (Hsx : forall n k, filter (fun c => c = PAD)
                  [symbol (getChars (opt_variant o)) (sextet n k)] = []).
  { intros n k. destruct (Hs (sextet n k)) as [H | H]; [exact H |].
    exfalso. apply H, sextet_range. }
  assert (Hw : filter (fun c => c = PAD) (wrap_text (opt_lineLength o)) = []).
  { apply filter_none. eapply Forall_impl; [apply wrap_text_chars |].
    intros c [-> | ->]; discriminate. }
  assert (Hp : forall k, length (filter (fun c => c = PAD) (pad_text (opt_padding o) k))
                         = if opt_padding o then k else 0%nat).
  { intros k. unfold pad_text. destruct (opt_padding o); [| reflexivity].
    rewrite filter_all by (apply Forall_replicate; reflexivity).
    apply length_replicate. }
  destruct (leftover bytes) as [| b0 [| b1 [| b2 rest]]];
    [destruct (opt_padding o); reflexivity | | | simpl in Hlt; lia];
    unfold tail_text.
  - change [symbol (getChars (opt_variant o)) (sextet (pack (byte_val b0) 0 0) 18);
            symbol (getChars (opt_variant o)) (sextet (pack (byte_val b0) 0 0) 12)]
      with ([symbol (getChars (opt_variant o)) (sextet (pack (byte_val b0) 0 0) 18)] ++
            [symbol (getChars (opt_variant o)) (sextet (pack (byte_val b0) 0 0) 12)]).
    rewrite !filter_app, !Hsx, Hw. cbn [app]. rewrite app_nil_r, Hp.
    destruct (opt_padding o); reflexivity.
  - change [symbol (getChars (opt_variant o)) (sextet (pack (byte_val b0) (byte_val b1) 0) 18);
            symbol (getChars (opt_variant o)) (sextet (pack (byte_val b0) (byte_val b1) 0) 12);
            symbol (getChars (opt_variant o)) (sextet (pack (byte_val b0) (byte_val b1) 0) 6)]
      with ([symbol (getChars (opt_variant o)) (sextet (pack (byte_val b0) (byte_val b1) 0) 18)] ++
            [symbol (getChars (opt_variant o)) (sextet (pack (byte_val b0) (byte_val b1) 0) 12)] ++
            [symbol (getChars (opt_variant o)) (sextet (pack (byte_val b0) (byte_val b1) 0) 6)]).
    rewrite !filter_app, !Hsx, Hw. cbn [app]. rewrite app_nil_r, Hp.
    destruct (opt_padding o); reflexivity.
Qed.

(** ** Decoding with other options than the text was encoded with *)

Lemma zero_fill_cons (a b c : byte) (l : list byte) :
  zero_fill (length (a :: b :: c :: l)) = zero_fill (length l).
Proof. unfold zero_fill. rewrite length_mod3_cons. reflexivity. Qed.

Lemma zero_fill_length (n : nat) :
  Z.of_nat (length (zero_fill n)) = (3 - Z.of_nat n mod 3) mod 3.
Proof.
  unfold zero_fill. rewrite length_replicate.
  rewrite Nat2Z.inj_mod, Nat2Z.inj_sub, Nat2Z.inj_mod.
  - reflexivity.
  - pose proof (Nat.mod_upper_bound n 3). lia.
Qed.

Lemma decoded_encode_text_zero v p bs :
  decoded (createLookup v) (encode_text (getChars v) p 0 bs)
    (group_count (encode_text (getChars v) p 0 bs)) =
  bs ++ zero_fill (length bs).
Proof.
  induction bs as [| a | a b | a b c l IH] using list_ind3.
  - reflexivity.
  - replace (group_count (encode_text (getChars v) p 0 [a])) with 1%nat
      by (destruct p; reflexivity).
    cbn [decoded app]. change (4 * Z.of_nat 0) with 0.
    change (encode_text (getChars v) p 0 [a])
      with (tail_text (getChars v) p 0 [a]).
    rewrite word_tail1.
    change (pack (byte_val a) 0 0)
      with (pack (byte_val a) (byte_val Byte.x00) (byte_val Byte.x00)).
    apply word_bytes_pack.
  - replace (group_count (encode_text (getChars v) p 0 [a; b])) with 1%nat
      by (destruct p; reflexivity).
    cbn [decoded app]. change (4 * Z.of_nat 0) with 0.
    change (encode_text (getChars v) p 0 [a; b])
      with (tail_text (getChars v) p 0 [a; b]).
    rewrite word_tail2.
    change (pack (byte_val a) (byte_val b) 0)
      with (pack (byte_val a) (byte_val b) (byte_val Byte.x00)).
    apply word_bytes_pack.
  - rewrite encode_text_step.
    rewrite group_count_app4 by reflexivity.
    rewrite decoded_shift by reflexivity.
    pose proof (byte_val_range a). pose proof (byte_val_range b).
    pose proof (byte_val_range c).
    rewrite word_quad by (apply pack_range; assumption).
    rewrite word_bytes_pack, IH, zero_fill_cons. reflexivity.
Qed.

Section DecodeText.

Variable s : jsstring.
Variable o : Base64Options.
Variable pt : bool.
Variable b : list byte.
Hypothesis sanitized :
  sanitize (opt_variant o) s = encode_text (getChars (opt_variant o)) pt 0 b.

Lemma text_length :
  Z.of_nat (length (encode_text (getChars (opt_variant o)) pt 0 b)) =
  4 * (Z.of_nat (length b) / 3) + tail_length pt (Z.of_nat (length b) mod 3).
Proof. apply encode_text_length. lia. Qed.

Lemma leftover_mod :
  Z.of_nat (length b) mod 3 = Z.of_nat (length (leftover b)).
Proof. rewrite leftover_length, Nat2Z.inj_mod. reflexivity. Qed.

(** The text has the padding [decode] expects, or needs none. *)
Lemma decode_text_same :
  pt = opt_padding o \/ leftover b = [] ->
  Z.of_nat (length b) + 3 < 2 ^ 29 ->
  decode s o = JS.Return b.
Proof.
  intros Hpt Hsize. rewrite decode_eq. cbv zeta. rewrite sanitized.
  pose proof text_length as Hlen. pose proof leftover_mod as Hmod.
  set (p := opt_padding o) in *.
  assert (Hcheck : p && negb (Z.rem (Z.of_nat (length
            (encode_text (getChars (opt_variant o)) pt 0 b))) 4 =? 0) = false).
  { destruct p; [| reflexivity]. cbn [andb].
    apply negb_false_iff, Z.eqb_eq.
    rewrite Z.rem_mod_nonneg by lia. rewrite Hlen. unfold tail_length.
    destruct Hpt as [-> | Hnil].
    - case_bool_decide; divmod.
    - rewrite Hnil in Hmod. simpl in Hmod.
      rewrite bool_decide_eq_true_2 by lia. divmod. }
  rewrite Hcheck.
  rewrite (outputLen_encode_text (opt_variant o) p pt b Hpt Hsize).
  rewrite bool_decide_eq_false_2 by lia. rewrite Nat2Z.id.
  destruct (decoded_encode_text (opt_variant o) pt b) as [junk ->].
  f_equal. unfold dec_view. cbn [snd].
  rewrite take_app_length, length_app.
  replace (length b - (length b + length junk))%nat with 0%nat by lia.
  apply app_nil_r.
Qed.

(** [decode] expects padding and the text has none where it would need it. *)
Lemma decode_text_missing_padding :
  opt_padding o = true -> pt = false -> (length b mod 3 <> 0)%nat ->
  decode s o = JS.Throw InvalidLength.
Proof.
  intros Hp Hpt Hm. rewrite decode_eq. cbv zeta. rewrite sanitized.
  pose proof text_length as Hlen. rewrite Hp, Hpt in *. cbn [andb].
  assert (Z.of_nat (length b) mod 3 <> 0) as Hm'.
  { rewrite <- (Nat2Z.inj_mod _ 3). lia. }
  replace (Z.rem (Z.of_nat (length (encode_text (getChars (opt_variant o)) false 0 b))) 4 =? 0)
    with false; [reflexivity |].
  symmetry. apply Z.eqb_neq. rewrite Z.rem_mod_nonneg by lia.
  rewrite Hlen. unfold tail_length.
  repeat case_bool_decide; divmod.
Qed.

(** The text is padded and [decode] is told not to expect padding: the pad
    characters are decoded as zero bits. *)
Lemma decode_text_extra_padding :
  opt_padding o = false -> pt = true ->
  Z.of_nat (length b) + 3 < 2 ^ 29 ->
  decode s o = JS.Return (b ++ zero_fill (length b)).
Proof.
  intros Hp Hpt Hsize. rewrite decode_eq. cbv zeta. rewrite sanitized.
  pose proof text_length as Hlen. rewrite Hp, Hpt in *. cbn [andb].
  assert (Hout : outputLen false (encode_text (getChars (opt_variant o)) true 0 b) =
                 Z.of_nat (length (b ++ zero_fill (length b)))).
  { unfold outputLen, paddingChars. rewrite Z.sub_0_r.
    rewrite length_app, Nat2Z.inj_add, zero_fill_length.
    rewrite sar_2; rewrite Hlen; unfold tail_length;
      case_bool_decide; divmod. }
  rewrite Hout. rewrite bool_decide_eq_false_2 by lia. rewrite Nat2Z.id.
  rewrite decoded_encode_text_zero.
  f_equal. unfold dec_view. cbn [snd].
  rewrite firstn_all, Nat.sub_diag. apply app_nil_r.
Qed.

End DecodeText.

Lemma sanitize_encode_as bytes o1 o2 :
  opt_variant o1 = opt_variant o2 ->
  sanitize (opt_variant o2) (encode bytes o1) =
  encode_text (getChars (opt_variant o2))
    (kept_padding (opt_variant o2) (opt_padding o1)) 0 bytes.
Proof. intros <-. apply sanitize_encode. Qed.

(** X14: a UrlSafe text, encoded with or without padding and with any line
    length, is decoded to the bytes it was made from when [decode] is called
    with [padding = false] (inputs below 2^29 - 3 bytes). *)
Theorem decode_urlsafe_unpadded (bytes : list byte) (o1 o2 : Base64Options) :
  opt_variant o1 = UrlSafe -> opt_variant o2 = UrlSafe ->
  opt_padding o2 = false ->
  Z.of_nat (length bytes) + 3 < 2 ^ 29 ->
  decode (encode bytes o1) o2 = JS.Return bytes.
Proof.
  intros H1 H2 Hp Hsize.
  apply (decode_text_same _ _ false); [| left; symmetry; exact Hp | exact Hsize].
  rewrite sanitize_encode_as by congruence. rewrite H2. reflexivity.
Qed.

Lemma decode_urlsafe_unpadded_witness :
  decode (encode (ascii_bytes "Ma") (padded UrlSafe)) (unpadded UrlSafe) =
  JS.Return (ascii_bytes "Ma").
Proof.
  apply (decode_urlsafe_unpadded (ascii_bytes "Ma") (padded UrlSafe) (unpadded UrlSafe));
    reflexivity.
Defined.

(** X15: a Standard text encoded with padding and decoded with
    [padding = false] gives the bytes followed by one zero byte for every
    '=' of the text (inputs below 2^29 - 3 bytes). *)
Theorem decode_standard_padding_unexpected (bytes : list byte)
    (o1 o2 : Base64Options) :
  opt_variant o1 = Standard -> opt_variant o2 = Standard ->
  opt_padding o1 = true -> opt_padding o2 = false ->
  Z.of_nat (length bytes) + 3 < 2 ^ 29 ->
  decode (encode bytes o1) o2 = JS.Return (bytes ++ zero_fill (length bytes)).
Proof.
  intros H1 H2 Hp1 Hp2 Hsize.
  apply (decode_text_extra_padding _ _ true);
    [| exact Hp2 | reflexivity | exact Hsize].
  rewrite sanitize_encode_as by congruence. rewrite H2, Hp1. reflexivity.
Qed.

Lemma decode_standard_padding_unexpected_witness :
  decode (encode (ascii_bytes "M") (padded Standard)) (unpadded Standard) =
  JS.Return (ascii_bytes "M" ++ zero_fill (length (ascii_bytes "M"))).
Proof.
  apply (decode_standard_padding_unexpected (ascii_bytes "M")
           (padded Standard) (unpadded Standard)); reflexivity.
Defined.

(** X16: a text encoded without padding, from an input whose length is not a
    multiple of 3, is refused with the length error when [decode] is called
    with [padding = true] under the same variant. *)
Theorem decode_padding_missing (bytes : list byte) (o1 o2 : Base64Options) :
  opt_variant o1 = opt_variant o2 ->
  opt_padding o1 = false -> opt_padding o2 = true ->
  (length bytes mod 3 <> 0)%nat ->
  decode (encode bytes o1) o2 = JS.Throw InvalidLength.
Proof.
  intros Hv Hp1 Hp2 Hm.
  apply (decode_text_missing_padding _ _ false bytes);
    [| exact Hp2 | reflexivity | exact Hm].
  rewrite sanitize_encode_as by exact Hv. rewrite Hp1.
  destruct (opt_variant o2); reflexivity.
Qed.

Lemma decode_padding_missing_witness :
  decode (encode (ascii_bytes "Ma") (unpadded Standard)) (padded Standard) =
  JS.Throw InvalidLength.
Proof.
  apply (decode_padding_missing (ascii_bytes "Ma") (unpadded Standard) (padded Standard));
    [reflexivity | reflexivity | reflexivity | discriminate].
Defined.

(** ** Characters that [decode] does not see *)

Lemma sanitize_app v s1 s2 : sanitize v (s1 ++ s2) = sanitize v s1 ++ sanitize v s2.
Proof. unfold sanitize. apply filter_app. Qed.

Lemma sanitize_noise v junk :
  Forall (fun c => (c ∉ getChars v) /\ c <> PAD) junk -> sanitize v junk = [].
Proof.
  intros Hj. unfold sanitize. apply filter_none.
  eapply Forall_impl; [exact Hj |].
  intros c [Hc Hp] Hr. destruct v.
  - rewrite regex_class_standard in Hr. apply bool_decide_unpack in Hr.
    destruct Hr as [Hr | Hr]; [exact (Hc Hr) | exact (Hp Hr)].
  - rewrite regex_class_urlsafe in Hr. apply bool_decide_unpack in Hr.
    exact (Hc Hr).
Qed.

(** X17: characters that are neither symbols of the selected alphabet nor
    '=' (line terminators, blanks, punctuation) can stand anywhere in the
    text: [decode] gives the same outcome as without them. *)
Theorem decode_ignores_noise (s1 junk s2 : list ascii) (o : Base64Options) :
  Forall (fun c => (c ∉ getChars (opt_variant o)) /\ c <> PAD) junk ->
  decode (s1 ++ junk ++ s2) o = decode (s1 ++ s2) o.
Proof.
  intros Hj. rewrite !decode_eq. cbv zeta.
  rewrite !sanitize_app, (sanitize_noise _ junk Hj). reflexivity.
Qed.

Lemma decode_ignores_noise_witness :
  decode (str "TW" ++ str " ,;" ++ str "Fu") no_options =
  decode (str "TW" ++ str "Fu") no_options.
Proof.
  apply (decode_ignores_noise (str "TW") (str " ,;") (str "Fu") no_options).
  apply (bool_decide_unpack _). vm_compute. exact I.
Defined.

(** ** Strings *)

(** X18: [decodeString] undoes [encodeString] on every string that the
    platform's decoder gives back from the bytes of the platform's encoder,
    under [Standard], or without padding, or when the number of bytes is a
    multiple of 3 (fewer than 2^29 - 3 bytes). *)
Theorem decodeString_encodeString {text : Type}
    (TextEncoder_encode : text -> list byte)
    (TextDecoder_decode : list byte -> text)
    (input : text) (o : Base64Options) :
  TextDecoder_decode (TextEncoder_encode input) = input ->
  opt_variant o = Standard \/ opt_padding o = false \/
    (length (TextEncoder_encode input) mod 3 = 0)%nat ->
  Z.of_nat (length (TextEncoder_encode input)) + 3 < 2 ^ 29 ->
  decodeString TextDecoder_decode (encodeString TextEncoder_encode input o) o =
  JS.Return input.
Proof.
  intros Hinv Hcase Hsize. unfold decodeString, encodeString.
  rewrite (decode_text_same _ o (kept_padding (opt_variant o) (opt_padding o))
             (TextEncoder_encode input)).
  - rewrite Hinv. reflexivity.
  - apply sanitize_encode.
  - destruct Hcase as [Hv | [Hp | Hm]].
    + left. rewrite Hv. reflexivity.
    + left. rewrite Hp. destruct (opt_variant o); reflexivity.
    + right. apply leftover_nil_iff, Hm.
  - exact Hsize.
Qed.

Lemma decodeString_encodeString_witness :
  decodeString string_of_list_byte
    (encodeString list_byte_of_string "Many hands"%string (wrapped Standard true 8))
    (wrapped Standard true 8) =
  JS.Return "Many hands"%string.
Proof.
  apply (decodeString_encodeString list_byte_of_string string_of_list_byte
           "Many hands"%string (wrapped Standard true 8)).
  - reflexivity.
  - left. reflexivity.
  - reflexivity.
Defined.
